(** * The Anvil region-file engine of [world/anvil.py]

    A shallow embedding of the classes [Sector] and [RegionFile]: Python
    integers are [Z], [bytes] objects are lists of [Byte.byte], the numpy
    object array [chunks] and the Python list [sectors] are lists, and the
    methods of [RegionFile] run in a small state-and-exception monad over the
    object's attributes and the one file the object names. *)

From Stdlib Require Import ZArith Lia Bool String.
From Stdlib.Strings Require Import Byte.
From Stdlib Require Import DecimalString.
From stdpp Require Import base tactics option list.

Local Open Scope Z_scope.

(** ** Python exceptions and results *)

(** The exceptions the modelled paths can raise.  [Exception_] is the plain
    [Exception(msg)] the size checks raise; [TypeError] is what a builtin
    raises when it is called with more positional arguments than it takes;
    [CodecError] stands for what the external [zlib], [gzip] and [nbt]
    modules raise on malformed input. *)
Inductive exn : Type :=
| FileNotFoundError (filename : string)
| Exception_ (msg : string)
| AttributeError
| UnsupportedOperation
| OverflowError
| ValueError
| IndexError
| OSError
| TypeError
| CodecError.

Inductive result (A : Type) : Type :=
| Ok (a : A)
| Raise (e : exn).
Arguments Ok {A} a.
Arguments Raise {A} e.

Definition result_bind {A B} (r : result A) (k : A -> result B) : result B :=
  match r with
  | Ok a => k a
  | Raise e => Raise e
  end.

Notation "x <-? r ; k" := (result_bind r (fun x => k))
  (at level 100, r at next level, right associativity).

(** ** Integers and bytes *)

Definition byte_to_Z (b : byte) : Z := Z.of_N (Byte.to_N b).

Definition byte_of_Z (z : Z) : byte :=
  match Byte.of_N (Z.to_N z) with
  | Some b => b
  | None => x00
  end.

(** [int.from_bytes(bs, 'big', signed=False)]; the empty string gives 0. *)
Definition int_from_bytes (bs : list byte) : Z :=
  fold_left (fun acc b => acc * 256 + byte_to_Z b) bs 0.

(** The [len] low-order base-256 digits of [n], most significant first. *)
Fixpoint be_digits (len : nat) (n : Z) : list byte :=
  match len with
  | O => []
  | S k => byte_of_Z ((n / 256 ^ Z.of_nat k) mod 256) :: be_digits k n
  end.

(** [n.to_bytes(len, 'big', signed=False)]: Python raises [OverflowError]
    for a negative [n] and for an [n] that does not fit in [len] bytes. *)
Definition int_to_bytes (n : Z) (len : nat) : result (list byte) :=
  if n <? 0 then Raise OverflowError
  else if 256 ^ Z.of_nat len <=? n then Raise OverflowError
  else Ok (be_digits len n).

(** [n.to_bytes(len, 'big', False)]: [signed] is a keyword-only parameter of
    [int.to_bytes], which takes at most two positional arguments, so the call
    raises [TypeError] whatever [n] and [len] are. *)
Definition int_to_bytes_positional (n : Z) (len : nat) : result (list byte) :=
  Raise TypeError.

(** [bytes(n)]: [n] zero bytes, [ValueError] for a negative count. *)
Definition zero_bytes (n : Z) : result (list byte) :=
  if n <? 0 then Raise ValueError else Ok (replicate (Z.to_nat n) x00).

(** ** class Sector *)

Record Sector : Type := mkSector { offset : Z; count : Z }.

#[global] Instance Sector_eq_dec : EqDecision Sector.
Proof. solve_decision. Defined.

Module SectorOps.

Definition end_ (self : Sector) : Z := offset self + count self.
Definition size (self : Sector) : Z := count self * 4096.
Definition file_offset (self : Sector) : Z := offset self * 4096.

(** [__lt__] and [__gt__]. *)
Definition lt (self other : Sector) : bool :=
  offset self + count self <=? offset other.
Definition gt (self other : Sector) : bool :=
  offset self >=? offset other + count other.

(** [__eq__] reads [other.offset], so comparing with [None] raises
    [AttributeError]. *)
Definition eq (self : Sector) (other : option Sector) : result bool :=
  match other with
  | Some o => Ok ((offset self =? offset o) && (count self =? count o))
  | None => Raise AttributeError
  end.

Definition intersects (self other : Sector) : bool :=
  if (offset self <=? offset other) && (end_ self >? offset other) then true
  else if (offset other <=? offset self) && (end_ other >? offset self) then true
  else false.

Definition to_bytes (self : Sector) : result (list byte) :=
  o <-? int_to_bytes (offset self) 3;
  c <-? int_to_bytes (count self) 1;
  Ok (o ++ c).

End SectorOps.

(** [v != None] for a value [v] held in a slot of [chunks].  [None != None]
    is [False]; a [Sector] has no [__ne__], so Python negates
    [Sector.__eq__(v, None)], which raises. *)
Definition ne_None (v : option Sector) : result bool :=
  match v with
  | None => Ok false
  | Some s => b <-? SectorOps.eq s None; Ok (negb b)
  end.

(** ** bisect.insort on the list of sectors *)

(** The loop of [bisect.bisect_right(a, x)]:
    [while lo < hi: mid = (lo + hi) // 2; if x < a[mid]: hi = mid; else: lo = mid + 1].
    [hi - lo] shrinks at every turn, so [fuel >= hi - lo] turns are enough
    (lemma [bisect_right_loop_fuel]); [mid < hi <= len(a)], so [a[mid]] is
    always in range. *)
Fixpoint bisect_right_loop (fuel : nat) (a : list Sector) (x : Sector)
    (lo hi : nat) : nat :=
  match fuel with
  | O => lo
  | S fuel' =>
      if (lo <? hi)%nat then
        let mid := ((lo + hi) / 2)%nat in
        match a !! mid with
        | Some am =>
            if SectorOps.lt x am then bisect_right_loop fuel' a x lo mid
            else bisect_right_loop fuel' a x (mid + 1)%nat hi
        | None => lo
        end
      else lo
  end.

Definition bisect_right (a : list Sector) (x : Sector) : nat :=
  bisect_right_loop (length a) a x 0 (length a).

(** [bisect.insort(a, x)]: [a.insert(bisect_right(a, x), x)]. *)
Definition insort (a : list Sector) (x : Sector) : list Sector :=
  let lo := bisect_right a x in
  take lo a ++ x :: drop lo a.

(** ** The file behind a RegionFile *)

(** An open file object: the bytes of the file and the stream position. *)
Record handle : Type := mkHandle { h_data : list byte; h_pos : nat }.

(** [f.seek(off)]; a negative position is refused by the operating system. *)
Definition f_seek (f : handle) (off : Z) : result handle :=
  if off <? 0 then Raise OSError
  else Ok (mkHandle (h_data f) (Z.to_nat off)).

(** [f.read(n)]: at most [n] bytes from the position on, all of the rest for
    a negative [n]; reading at or past the end gives the empty string. *)
Definition f_read (f : handle) (n : Z) : list byte * handle :=
  let rest := drop (h_pos f) (h_data f) in
  let bs := if n <? 0 then rest else take (Z.to_nat n) rest in
  (bs, mkHandle (h_data f) (h_pos f + length bs)).

(** [f.write(bs)] on a handle opened for writing: a position past the end
    leaves a hole that reads as zeros. *)
Definition f_write (f : handle) (bs : list byte) : handle :=
  match bs with
  | [] => f
  | _ =>
      mkHandle
        (take (h_pos f) (h_data f)
           ++ replicate (h_pos f - length (h_data f)) x00
           ++ bs ++ drop (h_pos f + length bs) (h_data f))
        (h_pos f + length bs)
  end.

(** ** class RegionFile *)

Record RegionFile : Type := mkRegionFile {
  filename : string;
  chunks : list (option Sector);
  sectors : list Sector
}.

(** What a method call can see and change: the object, and the file at
    [self.filename] ([None] when the path does not exist; when it exists it
    is a regular file). *)
Record world : Type := mkWorld {
  self : RegionFile;
  disk : option (list byte)
}.

Definition invalid_size (size : Z) : bool :=
  (size <? 8192) || negb (size mod 4096 =? 0).

(** One turn of the loop of [__init__] (lines 78-85) for slot [i]; the state
    is the open file, [self.chunks] and [self.sectors]. *)
Definition init_step (st : handle * list (option Sector) * list Sector)
    (i : nat) : handle * list (option Sector) * list Sector :=
  let '(f, chunks, sectors) := st in
  let '(b3, f) := f_read f 3 in
  let offset := int_from_bytes b3 in
  let '(b1, f) := f_read f 1 in
  let sector_count := int_from_bytes b1 in
  if (offset >=? 2) && (sector_count >? 0) then
    let sector := mkSector offset sector_count in
    (f, <[i := Some sector]> chunks, insort sectors sector)
  else
    (f, <[i := None]> chunks, sectors).

(** [RegionFile.__init__(filename)]. *)
Definition RegionFile_init (filename : string) (disk : option (list byte))
    : result RegionFile :=
  match disk with
  | None => Raise (FileNotFoundError filename)
  | Some data =>
      let size := Z.of_nat (length data) in
      if invalid_size size then Raise (Exception_ "Invalid region file!")
      else
        let '(_, chunks, sectors) :=
          fold_left init_step (seq 0 1024)
            (mkHandle data 0, replicate 1024 None, [mkSector 0 2]) in
        Ok (mkRegionFile filename chunks sectors)
  end.

(** *** The monad of method calls *)

Definition M (A : Type) : Type := world -> result A * world.

Definition ret {A} (a : A) : M A := fun w => (Ok a, w).
Definition raise {A} (e : exn) : M A := fun w => (Raise e, w).
Definition lift {A} (r : result A) : M A := fun w => (r, w).
Definition bind {A B} (m : M A) (k : A -> M B) : M B :=
  fun w =>
    match m w with
    | (Ok a, w') => k a w'
    | (Raise e, w') => (Raise e, w')
    end.

Notation "x <- m ;; k" := (bind m (fun x => k))
  (at level 100, m at next level, right associativity).
Notation "m ;; k" := (bind m (fun _ => k))
  (at level 100, right associativity).

Definition get_self : M RegionFile := fun w => (Ok (self w), w).
Definition set_sectors (l : list Sector) : M unit :=
  fun w => (Ok tt, mkWorld (mkRegionFile (filename (self w)) (chunks (self w)) l) (disk w)).
Definition set_disk (data : list byte) : M unit :=
  fun w => (Ok tt, mkWorld (self w) (Some data)).

(** [if not os.path.exists(self.filename): raise FileNotFoundError(self.filename)] *)
Definition check_exists : M unit :=
  fun w =>
    match disk w with
    | Some _ => (Ok tt, w)
    | None => (Raise (FileNotFoundError (filename (self w))), w)
    end.

(** [open(self.filename, 'rb')] *)
Definition open_rb : M handle :=
  fun w =>
    match disk w with
    | Some data => (Ok (mkHandle data 0), w)
    | None => (Raise (FileNotFoundError (filename (self w))), w)
    end.

(** [open(self.filename, 'wb')]: the file is created or truncated to length
    zero. *)
Definition open_wb : M handle :=
  set_disk [] ;; ret (mkHandle [] 0).

(** A write through a handle opened with ['wb'] reaches the file. *)
Definition write_wb (f : handle) (bs : list byte) : M handle :=
  let f' := f_write f bs in
  set_disk (h_data f') ;; ret f'.

(** [self.chunks[index]] for a non-negative [index]. *)
Definition chunk_at (index : Z) : M (option Sector) :=
  rf <- get_self ;;
  match chunks rf !! Z.to_nat index with
  | Some v => ret v
  | None => raise IndexError
  end.

(** [((offsetX & 31) + (offsetZ & 31) * 32)] *)
Definition slot_index (offsetX offsetZ : Z) : Z :=
  Z.land offsetX 31 + Z.land offsetZ 31 * 32.

(** *** get_free *)

(** [math.ceil(size_in_bytes / 4096)].  Python divides in floating point;
    the quotient by a power of two is exact while [|size_in_bytes| <= 2^53],
    the range in which this integer ceiling is the value Python computes. *)
Definition page_count (size_in_bytes : Z) : Z := - ((- size_in_bytes) / 4096).

(** The [for] loop of [get_free]: the pairs [sectors[i], sectors[i+1]] in
    order, returning at the first gap that holds [sector_count] pages. *)
Fixpoint first_gap (sectors : list Sector) (sector_count : Z) : option Sector :=
  match sectors with
  | cur :: (next :: _) as rest =>
      let dist_between := offset next - SectorOps.end_ cur in
      if dist_between >=? sector_count
      then Some (mkSector (SectorOps.end_ cur) sector_count)
      else first_gap rest sector_count
  | _ => None
  end.

Definition get_free (size_in_bytes : Z) (insert : bool) : M Sector :=
  let sector_count := page_count size_in_bytes in
  rf <- get_self ;;
  match first_gap (sectors rf) sector_count with
  | Some sector =>
      (if insert then set_sectors (insort (sectors rf) sector) else ret tt) ;;
      ret sector
  | None =>
      (* self.sectors[-1] *)
      match last (sectors rf) with
      | None => raise IndexError
      | Some end_sector =>
          let sector := mkSector (SectorOps.end_ end_sector) sector_count in
          (if insert then set_sectors (insort (sectors rf) sector) else ret tt) ;;
          ret sector
      end
  end.

(** *** delete_sector *)

(** The body under [if sect != None] opens the file with ['rb'], checks its
    size and then calls [f.write], which a read-only handle refuses; nothing
    after that call (lines 119-126) is reached. *)
Definition delete_sector (index : Z) (zero_data : bool) : M unit :=
  check_exists ;;
  if (0 <=? index) && (index <? 1024) then
    sect <- chunk_at index ;;
    present <- lift (ne_None sect) ;;
    if (present : bool) then
      f <- open_rb ;;
      let size := Z.of_nat (length (h_data f)) in
      if invalid_size size then raise (Exception_ "Invalid region file!")
      else
        f <- lift (f_seek f (index * 4)) ;;
        raise UnsupportedOperation
    else ret tt
  else ret tt.

(** *** The collaborators: nbt, zlib and gzip *)

Class Collaborators : Type := {
  nbt_tag : Type;
  nbt_dump : nbt_tag -> list byte;
  nbt_load : list byte -> result nbt_tag;
  zlib_compress : list byte -> list byte;
  zlib_decompress : list byte -> result (list byte);
  gzip_decompress : list byte -> result (list byte)
}.

Section Records.
Context `{Collaborators}.

Definition len (bs : list byte) : Z := Z.of_nat (length bs).

(** *** write_chunk_tag *)
Definition write_chunk_tag (offsetX offsetZ : Z) (chunk_tag : nbt_tag) : M unit :=
  check_exists ;;
  let chunk_data := zlib_compress (nbt_dump chunk_tag) in
  let ind := slot_index offsetX offsetZ in
  cur <- chunk_at ind ;;
  present <- lift (ne_None cur) ;;
  (if (present : bool) then delete_sector ind false else ret tt) ;;
  free <- get_free (len chunk_data + 5) true ;;
  f <- open_wb ;;
  let offset := offset free * 4096 in
  let size := count free * 4096 in
  let data_size := len chunk_data + 5 in
  let pad_bytes := size - data_size in
  f <- lift (f_seek f offset) ;;
  b4 <- lift (int_to_bytes_positional (len chunk_data + 1) 4) ;;
  f <- write_wb f b4 ;;
  f <- write_wb f [x02] ;;
  pad <- lift (zero_bytes pad_bytes) ;;
  f <- write_wb f pad ;;
  ret tt.

(** *** read_chunk_tag *)
Definition read_chunk_tag (offsetX offsetZ : Z) : M (option nbt_tag) :=
  check_exists ;;
  let ind := slot_index offsetX offsetZ in
  f <- open_rb ;;
  f <- lift (f_seek f (ind * 4)) ;;
  let '(b3, f) := f_read f 3 in
  let chunk_offset := int_from_bytes b3 in
  if chunk_offset =? 0 then ret None
  else
    f <- lift (f_seek f (chunk_offset * 4096)) ;;
    let '(b4, f) := f_read f 4 in
    let data_length := int_from_bytes b4 in
    let '(b1, f) := f_read f 1 in
    let compression_type := int_from_bytes b1 in
    if compression_type =? 2 then
      raw <- lift (zlib_decompress (fst (f_read f (data_length - 1)))) ;;
      tag <- lift (nbt_load raw) ;; ret (Some tag)
    else if compression_type =? 1 then
      raw <- lift (gzip_decompress (fst (f_read f (data_length - 1)))) ;;
      tag <- lift (nbt_load raw) ;; ret (Some tag)
    else if compression_type =? 3 then
      tag <- lift (nbt_load (fst (f_read f (data_length - 1)))) ;; ret (Some tag)
    else ret None.

(** *** read_chunk_raw *)
Definition read_chunk_raw (offsetX offsetZ : Z) : M (option (list byte)) :=
  check_exists ;;
  let ind := slot_index offsetX offsetZ in
  f <- open_rb ;;
  f <- lift (f_seek f (ind * 4)) ;;
  let '(b3, f) := f_read f 3 in
  let chunk_offset := int_from_bytes b3 in
  if chunk_offset =? 0 then ret None
  else
    f <- lift (f_seek f (chunk_offset * 4096)) ;;
    let '(b4, f) := f_read f 4 in
    let data_length := int_from_bytes b4 in
    let '(b1, f) := f_read f 1 in
    let compression_type := int_from_bytes b1 in
    if compression_type =? 2 then
      raw <- lift (zlib_decompress (fst (f_read f (data_length - 1)))) ;;
      ret (Some raw)
    else if compression_type =? 1 then
      raw <- lift (gzip_decompress (fst (f_read f (data_length - 1)))) ;;
      ret (Some raw)
    else if compression_type =? 3 then
      ret (Some (fst (f_read f (data_length - 1))))
    else ret None.

End Records.

(** *** has_chunk *)
Definition has_chunk (offsetX offsetZ : Z) : M bool :=
  check_exists ;;
  let ind := slot_index offsetX offsetZ in
  f <- open_rb ;;
  f <- lift (f_seek f (ind * 4)) ;;
  ret (negb (int_from_bytes (fst (f_read f 3)) =? 0)).

(** ** What the claims are stated with *)

(** The two fields of a 4-byte table entry, and of slot [i] of a header. *)
Definition decode_fields (bs : list byte) : Z * Z :=
  (int_from_bytes (take 3 bs), int_from_bytes (take 1 (drop 3 bs))).

Definition header_offset (data : list byte) (i : nat) : Z :=
  int_from_bytes (take 3 (drop (4 * i) data)).

Definition header_count (data : list byte) (i : nat) : Z :=
  int_from_bytes (take 1 (drop (4 * i + 3) data)).

(** Decoding one table entry the way [__init__] does: one turn of its loop
    on a file that holds just the entry; the result is what the turn leaves
    in [chunks[0]]. *)
Definition decode_entry (bs : list byte) : option Sector :=
  let '(_, chunks, _) := init_step (mkHandle bs 0, [None], [mkSector 0 2]) 0 in
  default None (chunks !! 0%nat).

(** What [__init__] makes of slot [i] of the header. *)
Definition header_entry (data : list byte) (i : nat) : option Sector :=
  let o := header_offset data i in
  let c := header_count data i in
  if (o >=? 2) && (c >? 0) then Some (mkSector o c) else None.

(** Whether an error message names a size: the decimal numeral of the size
    occurs in the message. *)
Definition names_size (msg : string) (size : nat) : bool :=
  match String.index 0 (NilZero.string_of_uint (Nat.to_uint size)) msg with
  | Some _ => true
  | None => false
  end.

(** ** Region files used as concrete inputs *)

(** A freshly created region file: two header pages of zeros. *)
Definition blank_region : list byte := replicate (Z.to_nat 8192) x00.

(** A region file whose slot 0 holds the table entry [entry], with an
    otherwise empty header, followed by the data pages [pages]. *)
Definition region_with_entry (entry pages : list byte) : list byte :=
  entry ++ replicate (Z.to_nat 8192 - length entry) x00 ++ pages.

(** The object [RegionFile(name)] together with its file, when the
    constructor returns. *)
Definition opened (name : string) (data : list byte) : option world :=
  match RegionFile_init name (Some data) with
  | Ok rf => Some (mkWorld rf (Some data))
  | Raise _ => None
  end.

(** The object [__init__] builds from a header without usable entries. *)
Definition empty_object (name : string) : RegionFile :=
  mkRegionFile name (replicate 1024 None) [mkSector 0 2].

Definition blank_world : world :=
  mkWorld (empty_object "r.0.0.mca") (Some blank_region).

(** Slot 0 holds offset 5 with count 0. *)
Definition stale_region : list byte := region_with_entry [x00; x00; x05; x00] [].

Definition stale_world : world :=
  mkWorld (empty_object "r.0.0.mca") (Some stale_region).

(** Slot 0 points at page 2, one page long; the page holds the record
    header [length, compression_type] followed by zeros. *)
Definition one_chunk_region (length_field : list byte) (compression_type : byte)
    : list byte :=
  region_with_entry [x00; x00; x02; x01]
    (length_field ++ compression_type :: replicate (Z.to_nat 4091) x00).

Definition one_chunk_world (length_field : list byte) (compression_type : byte)
    : world :=
  mkWorld
    (mkRegionFile "r.0.0.mca" (<[0%nat := Some (mkSector 2 1)]> (replicate 1024 None))
       [mkSector 0 2; mkSector 2 1])
    (Some (one_chunk_region length_field compression_type)).

(** Stand-ins for the collaborators, used to evaluate the methods on
    concrete inputs: a document is its own serialisation and the codecs
    store the bytes as they are. *)
Definition stored_collaborators : Collaborators := {|
  nbt_tag := list byte;
  nbt_dump := fun tag => tag;
  nbt_load := fun bs => Ok bs;
  zlib_compress := fun bs => bs;
  zlib_decompress := fun bs => Ok bs;
  gzip_decompress := fun bs => Ok bs
|}.

(** The position of the record of a slot whose table offset is [off], its
    length field and its compression type. *)
Definition record_length (data : list byte) (off : Z) : Z :=
  int_from_bytes (take 4 (drop (Z.to_nat (off * 4096)) data)).

Definition record_type (data : list byte) (off : Z) : Z :=
  int_from_bytes (take 1 (drop (Z.to_nat (off * 4096) + 4) data)).

(** ** The allocator's view of the file *)

(** Each sector of the list ends at or before the offset of the next. *)
Fixpoint chained (l : list Sector) : Prop :=
  match l with
  | a :: (b :: _) as rest => SectorOps.end_ a <= offset b /\ chained rest
  | _ => True
  end.

(** The [sectors] list of a consistent region file: the two header pages
    first, sectors of at least one page, in offset order without overlap. *)
Definition well_formed (l : list Sector) : Prop :=
  (exists rest, l = mkSector 0 2 :: rest)
  /\ Forall (fun s => 0 < count s) l
  /\ chained l.

(** [s] intersects no sector of [l], asked either way round. *)
Definition disjoint_from (s : Sector) (l : list Sector) : Prop :=
  forall t, t ∈ l ->
    SectorOps.intersects s t = false /\ SectorOps.intersects t s = false.

(** [s] is the first fit in [l]: it intersects nothing in [l], it starts at
    page 2 or later, and a sector of the same count at any earlier page
    [p >= 2] would intersect a sector of [l]. *)
Definition first_fit (l : list Sector) (s : Sector) : Prop :=
  disjoint_from s l
  /\ 2 <= offset s
  /\ forall p, 2 <= p < offset s ->
       exists t, t ∈ l /\ SectorOps.intersects (mkSector p (count s)) t = true.

(** The sector [get_free] settles on: the first gap, else the end of the
    last sector. *)
Definition chosen (l : list Sector) (c : Z) (s : Sector) : Prop :=
  match first_gap l c with
  | Some g => s = g
  | None => exists e, last l = Some e /\ s = mkSector (SectorOps.end_ e) c
  end.

(** A run of [get_free(size)] calls (with the default [insert=True]) and
    nothing else in between; the log pairs the [sectors] list each call found
    with the sector it returned. *)
Fixpoint allocations (sizes : list Z) : M (list (list Sector * Sector)) :=
  match sizes with
  | [] => ret []
  | size :: sizes' =>
      rf <- get_self ;;
      s <- get_free size true ;;
      log <- allocations sizes' ;;
      ret ((sectors rf, s) :: log)
  end.

(** What is claimed of such a run that starts with the list [cur]: each call
    finds the list the previous call left, with the previous sector in it,
    and returns the first fit of the requested page count. *)
Fixpoint first_fit_run (cur : list Sector) (sizes : list Z)
    (log : list (list Sector * Sector)) : Prop :=
  match sizes, log with
  | [], [] => True
  | size :: sizes', (found, s) :: log' =>
      found = cur
      /\ count s = page_count size
      /\ first_fit found s
      /\ exists next, next ≡ₚ s :: found /\ first_fit_run next sizes' log'
  | _, _ => False
  end.

(** A header whose occupied slots name sectors that do not intersect one
    another. *)
Definition consistent_header (data : list byte) : Prop :=
  forall (i j : nat) s t,
    (i < 1024)%nat -> (j < 1024)%nat -> i <> j ->
    header_entry data i = Some s -> header_entry data j = Some t ->
    SectorOps.intersects s t = false.

(** ** write_sector *)

Definition set_chunks (cs : list (option Sector)) : M unit :=
  fun w => (Ok tt, mkWorld (mkRegionFile (filename (self w)) cs (sectors (self w))) (disk w)).

(** [self.chunks[index] = v] on the numpy array: a negative index counts
    from the end, an index outside [-len, len) raises [IndexError]. *)
Definition set_chunk (index : Z) (v : option Sector) : M unit :=
  rf <- get_self ;;
  let n := Z.of_nat (length (chunks rf)) in
  if (0 <=? index) && (index <? n) then
    set_chunks (<[Z.to_nat index := v]> (chunks rf))
  else if (- n <=? index) && (index <? 0) then
    set_chunks (<[Z.to_nat (index + n) := v]> (chunks rf))
  else raise IndexError.

(** [write_sector(sector, index)]: the file is opened with ['wb'], so the
    size the check sees is the size after truncation. *)
Definition write_sector (sector : Sector) (index : Z) : M unit :=
  check_exists ;;
  f <- open_wb ;;
  let size := Z.of_nat (length (h_data f)) in
  if invalid_size size then raise (Exception_ "Invalid region file!")
  else
    f <- lift (f_seek f (index * 4)) ;;
    o <- lift (int_to_bytes (offset sector) 3) ;;
    f <- write_wb f o ;;
    c <- lift (int_to_bytes (count sector) 1) ;;
    f <- write_wb f c ;;
    set_chunk index (Some sector) ;;
    rf <- get_self ;;
    set_sectors (insort (sectors rf) sector).

(** ** What the further properties are stated with *)

(** A [sectors] list as [__init__] builds it from any header: the two header
    pages first, then sectors of at least one page at page 2 or later, in
    whatever order and overlap the header gives them. *)
Definition header_first (l : list Sector) : Prop :=
  exists rest,
    l = mkSector 0 2 :: rest
    /\ Forall (fun s => 2 <= offset s /\ 0 < count s) rest.

(** The record a slot with table offset [off] points at is [record]: the
    bytes of the file from page [off] on start with [record]. *)
Definition record_at (data : list byte) (off : Z) (record : list byte) : Prop :=
  take (length record) (drop (Z.to_nat (off * 4096)) data) = record.

(** What the readers do with the payload of a record of compression type
    1, 2 or 3. *)
Definition decompress `{Collaborators} (compression_type : Z)
    (payload : list byte) : result (list byte) :=
  if compression_type =? 2 then zlib_decompress payload
  else if compression_type =? 1 then gzip_decompress payload
  else Ok payload.

(** ** Timestamps *)


(** [write_timestamp(index)]; [int_timestamp] is what
    [arrow.utcnow().int_timestamp] gives when the call reaches it. *)
Definition write_timestamp (int_timestamp : Z) (index : Z) : M unit :=
  check_exists ;;
  f <- open_wb ;;
  let size := Z.of_nat (length (h_data f)) in
  if invalid_size size then raise (Exception_ "Invalid region file!")
  else
    f <- lift (f_seek f (index * 4 + 4096)) ;;
    b4 <- lift (int_to_bytes_positional int_timestamp 4) ;;
    f <- write_wb f b4 ;;
    ret tt.


(** * Theorems *)

(** ** Bytes and integers *)

Lemma byte_to_of_Z (z : Z) : 0 <= z < 256 -> byte_to_Z (byte_of_Z z) = z.
Proof.
  intros Hz. unfold byte_to_Z, byte_of_Z.
  destruct (Byte.of_N (Z.to_N z)) as [b|] eqn:E.
  - apply Byte.to_of_N in E. rewrite E. lia.
  - apply Byte.of_N_None_iff in E. lia.
Qed.

Lemma byte_to_Z_range (b : byte) : 0 <= byte_to_Z b < 256.
Proof.
  unfold byte_to_Z. pose proof (Byte.to_N_bounded b). lia.
Qed.

Lemma fold_be_digits (k : nat) (n acc : Z) :
  0 <= n ->
  fold_left (fun a b => a * 256 + byte_to_Z b) (be_digits k n) acc
  = acc * 256 ^ Z.of_nat k + n mod 256 ^ Z.of_nat k.
Proof.
  intros Hn. revert acc. induction k as [|k IH]; intros acc.
  - simpl. rewrite Z.mod_1_r. lia.
  - cbn [be_digits fold_left]. rewrite IH.
    rewrite byte_to_of_Z by (apply Z.mod_pos_bound; lia).
    rewrite Nat2Z.inj_succ, Z.pow_succ_r by lia.
    rewrite (Z.mul_comm 256 (256 ^ Z.of_nat k)).
    rewrite (Z.rem_mul_r n (256 ^ Z.of_nat k) 256) by lia.
    lia.
Qed.

Lemma int_from_bytes_be_digits (k : nat) (n : Z) :
  0 <= n -> int_from_bytes (be_digits k n) = n mod 256 ^ Z.of_nat k.
Proof.
  intros Hn. unfold int_from_bytes. rewrite fold_be_digits by done. lia.
Qed.

Lemma length_be_digits (k : nat) (n : Z) : length (be_digits k n) = k.
Proof. induction k; simpl; congruence. Qed.

Lemma int_to_bytes_ok (n : Z) (k : nat) :
  0 <= n < 256 ^ Z.of_nat k -> int_to_bytes n k = Ok (be_digits k n).
Proof.
  intros Hn. unfold int_to_bytes.
  destruct (Z.ltb_spec n 0); [lia|].
  destruct (Z.leb_spec (256 ^ Z.of_nat k) n); [lia|done].
Qed.

Lemma int_to_bytes_overflow (n : Z) (k : nat) :
  256 ^ Z.of_nat k <= n -> int_to_bytes n k = Raise OverflowError.
Proof.
  intros Hn. unfold int_to_bytes.
  destruct (Z.ltb_spec n 0); [done|].
  destruct (Z.leb_spec (256 ^ Z.of_nat k) n); [done|lia].
Qed.

Lemma int_to_bytes_roundtrip (n : Z) (k : nat) (bs : list byte) :
  int_to_bytes n k = Ok bs -> length bs = k /\ int_from_bytes bs = n.
Proof.
  unfold int_to_bytes.
  destruct (Z.ltb_spec n 0); [done|].
  destruct (Z.leb_spec (256 ^ Z.of_nat k) n); [done|].
  intros [= <-]. split; [apply length_be_digits|].
  rewrite int_from_bytes_be_digits by done. apply Z.mod_small. lia.
Qed.

(** ** Sector.to_bytes *)

(** C9: encoding a sector whose offset does not fit in three bytes or whose
    count does not fit in one byte raises [OverflowError]; no bytes are
    produced. *)
Theorem to_bytes_overflow (s : Sector) :
  2 ^ 24 <= offset s \/ 256 <= count s ->
  SectorOps.to_bytes s = Raise OverflowError.
Proof.
  intros Hbig. unfold SectorOps.to_bytes.
  destruct (int_to_bytes (offset s) 3) as [o|e] eqn:Eo; cbn.
  - destruct Hbig as [Hbig|Hbig].
    + rewrite int_to_bytes_overflow in Eo by (simpl; lia). done.
    + rewrite int_to_bytes_overflow by (simpl; lia). done.
  - unfold int_to_bytes in Eo.
    repeat case_match; congruence.
Qed.

Lemma to_bytes_overflow_witness :
  SectorOps.to_bytes (mkSector (2 ^ 24) 1) = Raise OverflowError
  /\ SectorOps.to_bytes (mkSector 2 256) = Raise OverflowError.
Proof.
  split.
  - apply (to_bytes_overflow (mkSector (2 ^ 24) 1)). left. simpl. lia.
  - apply (to_bytes_overflow (mkSector 2 256)). right. simpl. lia.
Defined.

(** ** The table entry codec *)

Lemma decode_entry_fields (bs : list byte) :
  decode_entry bs =
    let '(o, c) := decode_fields bs in
    if (o >=? 2) && (c >? 0) then Some (mkSector o c) else None.
Proof.
  unfold decode_entry, decode_fields, init_step, f_read. cbn [h_pos h_data].
  rewrite drop_0. cbn [Z.ltb Z.compare Nat.add].
  change (Z.to_nat 3) with 3%nat. change (Z.to_nat 1) with 1%nat.
  assert (Hd : take 1 (drop (length (take 3 bs)) bs) = take 1 (drop 3 bs)).
  { rewrite length_take. destruct (Nat.le_gt_cases 3 (length bs)).
    - by rewrite Nat.min_l.
    - rewrite Nat.min_r by lia. by rewrite !drop_ge by lia. }
  rewrite Hd.
  destruct ((int_from_bytes (take 3 bs) >=? 2) && (int_from_bytes (take 1 (drop 3 bs)) >? 0));
    reflexivity.
Qed.

(** C8 (amended): for [0 <= offset < 2^24] and [0 < count < 256] the sector
    encodes to four bytes whose two fields read back as [offset] and
    [count]; the decoding of [__init__] turns them into
    [Sector(offset, count)] when [offset >= 2] and into an empty slot when
    [offset] is 0 or 1. *)
Theorem encode_decode_entry (o c : Z) :
  0 <= o < 2 ^ 24 -> 0 < c < 256 ->
  exists bs,
    SectorOps.to_bytes (mkSector o c) = Ok bs
    /\ length bs = 4%nat
    /\ decode_fields bs = (o, c)
    /\ decode_entry bs = if 2 <=? o then Some (mkSector o c) else None.
Proof.
  intros Ho Hc. exists (be_digits 3 o ++ be_digits 1 c).
  assert (Hf : decode_fields (be_digits 3 o ++ be_digits 1 c) = (o, c)).
  { unfold decode_fields.
    rewrite (take_app_length' (be_digits 3 o)) by (by rewrite length_be_digits).
    rewrite (drop_app_length' (be_digits 3 o)) by (by rewrite length_be_digits).
    rewrite take_ge by (rewrite length_be_digits; lia).
    rewrite !int_from_bytes_be_digits by lia.
    rewrite !Z.mod_small by (simpl; lia). done. }
  split; [|split; [|split]].
  - unfold SectorOps.to_bytes. cbn [offset count].
    rewrite !int_to_bytes_ok by (simpl; lia). done.
  - reflexivity.
  - done.
  - rewrite decode_entry_fields, Hf.
    rewrite Z.geb_leb, Z.gtb_ltb.
    destruct (Z.leb_spec 2 o); destruct (Z.ltb_spec 0 c); try done; lia.
Qed.

Lemma encode_decode_entry_witness :
  exists bs,
    SectorOps.to_bytes (mkSector 2 1) = Ok bs
    /\ length bs = 4%nat
    /\ decode_fields bs = (2, 1)
    /\ decode_entry bs = Some (mkSector 2 1).
Proof. apply (encode_decode_entry 2 1); lia. Defined.

(** C8, as first stated, fails at [Sector(1, 1)]: it is within the stated
    range and encodes to [00 00 01 01], which [__init__] decodes to an empty
    slot. *)
Lemma encode_decode_entry_counterexample :
  0 <= 1 < 2 ^ 24 /\ 0 < 1 < 256
  /\ SectorOps.to_bytes (mkSector 1 1) = Ok [x00; x00; x01; x01]
  /\ decode_entry [x00; x00; x01; x01] <> Some (mkSector 1 1).
Proof.
  split; [lia|]. split; [lia|]. split; [reflexivity|]. vm_compute. discriminate.
Qed.

(** ** RegionFile.__init__ *)

Lemma invalid_size_false (size : Z) :
  invalid_size size = false <-> 8192 <= size /\ size mod 4096 = 0.
Proof.
  unfold invalid_size. rewrite orb_false_iff, negb_false_iff, Z.ltb_ge, Z.eqb_eq. tauto.
Qed.

Lemma invalid_size_true (size : Z) :
  invalid_size size = true <-> size < 8192 \/ size mod 4096 <> 0.
Proof.
  unfold invalid_size. rewrite orb_true_iff, negb_true_iff, Z.ltb_lt, Z.eqb_neq. tauto.
Qed.

(** C3 (amended): a region file whose size is below 8192 or not a multiple
    of 4096 makes [__init__] raise [Exception('Invalid region file!')], the
    same fixed message for every size; a file whose size is a multiple of
    4096 and at least 8192 is opened without error. *)
Theorem init_size_check (name : string) (data : list byte) :
  (Z.of_nat (length data) < 8192 \/ Z.of_nat (length data) mod 4096 <> 0 ->
   RegionFile_init name (Some data) = Raise (Exception_ "Invalid region file!"))
  /\ (8192 <= Z.of_nat (length data) /\ Z.of_nat (length data) mod 4096 = 0 ->
      exists rf, RegionFile_init name (Some data) = Ok rf).
Proof.
  split; intros Hsize; unfold RegionFile_init.
  - apply invalid_size_true in Hsize. by rewrite Hsize.
  - apply invalid_size_false in Hsize. rewrite Hsize.
    destruct (fold_left init_step _ _) as [[f chunks] sectors]. eauto.
Qed.

Lemma init_size_check_witness :
  RegionFile_init "r.0.0.mca" (Some (replicate (Z.to_nat 8191) x00))
    = Raise (Exception_ "Invalid region file!")
  /\ RegionFile_init "r.0.0.mca" (Some (replicate (Z.to_nat 4097) x00))
    = Raise (Exception_ "Invalid region file!")
  /\ exists rf, RegionFile_init "r.0.0.mca" (Some blank_region) = Ok rf.
Proof.
  split; [|split].
  - apply (proj1 (init_size_check "r.0.0.mca" (replicate (Z.to_nat 8191) x00))).
    left. vm_compute. reflexivity.
  - apply (proj1 (init_size_check "r.0.0.mca" (replicate (Z.to_nat 4097) x00))).
    left. vm_compute. reflexivity.
  - apply (proj2 (init_size_check "r.0.0.mca" blank_region)).
    split; vm_compute; [discriminate|reflexivity].
Defined.

(** C3, as first stated, fails on a file of 8191 bytes: the error raised
    carries the message ['Invalid region file!'], in which the size 8191
    does not occur. *)
Lemma init_error_names_size_counterexample :
  RegionFile_init "r.0.0.mca" (Some (replicate (Z.to_nat 8191) x00))
    = Raise (Exception_ "Invalid region file!")
  /\ names_size "Invalid region file!" (Z.to_nat 8191) = false.
Proof. split; vm_compute; reflexivity. Qed.

Lemma f_read_within (data : list byte) (pos n : nat) :
  (pos + n <= length data)%nat ->
  f_read (mkHandle data pos) (Z.of_nat n)
  = (take n (drop pos data), mkHandle data (pos + n)).
Proof.
  intros Hlen. unfold f_read. cbn [h_data h_pos].
  destruct (Z.ltb_spec (Z.of_nat n) 0); [lia|].
  rewrite Nat2Z.id, length_take, length_drop.
  by rewrite Nat.min_l by lia.
Qed.

Lemma init_step_entry (data : list byte) (i : nat) chunks sectors :
  (4 * i + 4 <= length data)%nat ->
  init_step (mkHandle data (4 * i), chunks, sectors) i
  = (mkHandle data (4 * (i + 1)),
     <[i := header_entry data i]> chunks,
     match header_entry data i with
     | Some s => insort sectors s
     | None => sectors
     end).
Proof.
  intros Hlen. unfold init_step, header_entry, header_offset, header_count.
  change 3 with (Z.of_nat 3). change 1 with (Z.of_nat 1).
  rewrite (f_read_within data (4 * i) 3) by lia.
  rewrite (f_read_within data (4 * i + 3) 1) by lia.
  replace (4 * i + 3 + 1)%nat with (4 * (i + 1))%nat by lia.
  by destruct ((_ >=? 2) && (_ >? 0)).
Qed.

Lemma insort_perm (a : list Sector) (x : Sector) : insort a x ≡ₚ x :: a.
Proof.
  unfold insort. rewrite <- Permutation_middle. by rewrite take_drop.
Qed.

Lemma init_loop_spec (data : list byte) (n : nat) :
  forall (i : nat) chunks sectors,
    (4 * (i + n) <= length data)%nat ->
    (i + n <= length chunks)%nat ->
    exists chunks' sectors',
      fold_left init_step (seq i n) (mkHandle data (4 * i), chunks, sectors)
      = (mkHandle data (4 * (i + n)), chunks', sectors')
      /\ length chunks' = length chunks
      /\ (forall j, (j < i \/ i + n <= j)%nat -> chunks' !! j = chunks !! j)
      /\ (forall j, (i <= j < i + n)%nat -> chunks' !! j = Some (header_entry data j))
      /\ sectors' ≡ₚ omap (header_entry data) (seq i n) ++ sectors.
Proof.
  induction n as [|n IH]; intros i chunks sectors Hdata Hchunks.
  - exists chunks, sectors. cbn [seq fold_left omap].
    replace (i + 0)%nat with i by lia.
    repeat split; try done. intros j Hj. lia.
  - cbn [seq fold_left]. rewrite init_step_entry by lia.
    replace (S i) with (i + 1)%nat by lia.
    destruct (IH (i + 1)%nat (<[i := header_entry data i]> chunks)
                (match header_entry data i with
                 | Some s => insort sectors s
                 | None => sectors
                 end)) as (chunks' & sectors' & Hfold & Hlen & Hout & Hin & Hperm).
    { lia. } { rewrite length_insert. lia. }
    exists chunks', sectors'. rewrite Hfold.
    replace (i + 1 + n)%nat with (i + S n)%nat by lia.
    split; [done|]. split; [by rewrite Hlen, length_insert|].
    split; [|split].
    + intros j Hj. rewrite Hout by lia. apply list_lookup_insert_ne. lia.
    + intros j Hj. destruct (decide (j = i)) as [->|Hne].
      * rewrite Hout by lia. apply list_lookup_insert_eq. lia.
      * apply Hin. lia.
    + rewrite Hperm. cbn [omap list_omap].
      destruct (header_entry data i) as [s|]; [|done].
      rewrite insort_perm. cbn. by rewrite Permutation_middle.
Qed.

Lemma init_spec (name : string) (data : list byte) :
  invalid_size (Z.of_nat (length data)) = false ->
  exists rf,
    RegionFile_init name (Some data) = Ok rf
    /\ filename rf = name
    /\ length (chunks rf) = 1024%nat
    /\ (forall i, (i < 1024)%nat -> chunks rf !! i = Some (header_entry data i))
    /\ sectors rf ≡ₚ omap (header_entry data) (seq 0 1024) ++ [mkSector 0 2].
Proof.
  intros Hsize. unfold RegionFile_init. rewrite Hsize.
  apply invalid_size_false in Hsize.
  destruct (init_loop_spec data 1024 0 (replicate 1024 None) [mkSector 0 2])
    as (chunks' & sectors' & Hfold & Hlen & _ & Hin & Hperm).
  { lia. } { by rewrite length_replicate. }
  change (4 * 0)%nat with 0%nat in Hfold. rewrite Hfold.
  eexists. split; [done|]. cbn [filename chunks sectors].
  rewrite Hlen, length_replicate. repeat split; try done.
  intros i Hi. apply Hin. lia.
Qed.

Lemma int_from_bytes_nonneg (bs : list byte) : 0 <= int_from_bytes bs.
Proof.
  unfold int_from_bytes.
  assert (Hgen : forall acc, 0 <= acc ->
            0 <= fold_left (fun a b => a * 256 + byte_to_Z b) bs acc).
  { induction bs as [|b bs IH]; intros acc Hacc; cbn [fold_left]; [done|].
    apply IH. pose proof (byte_to_Z_range b). lia. }
  by apply Hgen.
Qed.

Lemma header_entry_None (data : list byte) (i : nat) :
  header_entry data i = None
  <-> header_offset data i < 2 \/ header_count data i = 0.
Proof.
  unfold header_entry.
  pose proof (int_from_bytes_nonneg (take 1 (drop (4 * i + 3) data))) as Hc.
  fold (header_count data i) in Hc.
  generalize dependent (header_count data i).
  generalize (header_offset data i). intros o c Hc.
  rewrite Z.geb_leb, Z.gtb_ltb.
  destruct (Z.leb_spec 2 o); destruct (Z.ltb_spec 0 c); cbn [andb];
    split; intros Hx; try done; lia.
Qed.

Lemma header_entry_Some (data : list byte) (i : nat) :
  2 <= header_offset data i -> 0 < header_count data i ->
  header_entry data i = Some (mkSector (header_offset data i) (header_count data i)).
Proof.
  intros Ho Hc. unfold header_entry. rewrite Z.geb_leb, Z.gtb_ltb.
  destruct (Z.leb_spec 2 (header_offset data i)); [|lia].
  destruct (Z.ltb_spec 0 (header_count data i)); [done|lia].
Qed.

(** C4 (amended): on open, slot [i] is left empty exactly when its entry
    has [offset < 2] (0 or 1, whatever the count) or [count == 0]; every
    other entry puts [Sector(offset, count)] in [chunks[i]] and in
    [sectors]. *)
Theorem init_slot (name : string) (data : list byte) (i : nat) :
  8192 <= Z.of_nat (length data) ->
  Z.of_nat (length data) mod 4096 = 0 ->
  (i < 1024)%nat ->
  exists rf,
    RegionFile_init name (Some data) = Ok rf
    /\ (chunks rf !! i = Some None
        <-> header_offset data i < 2 \/ header_count data i = 0)
    /\ (2 <= header_offset data i -> 0 < header_count data i ->
        chunks rf !! i
          = Some (Some (mkSector (header_offset data i) (header_count data i)))
        /\ mkSector (header_offset data i) (header_count data i) ∈ sectors rf).
Proof.
  intros Hsize Hmod Hi.
  destruct (init_spec name data) as (rf & Hinit & _ & _ & Hchunks & Hperm).
  { by apply invalid_size_false. }
  exists rf. split; [done|]. rewrite (Hchunks i Hi). split.
  - rewrite <- header_entry_None. split; [by intros [= ->]|by intros ->].
  - intros Ho Hc. pose proof (header_entry_Some data i Ho Hc) as Hentry.
    split; [by rewrite Hentry|].
    rewrite Hperm. apply elem_of_app. left.
    apply list_elem_of_omap. exists i. split; [|done].
    apply elem_of_seq. lia.
Qed.

Lemma init_slot_witness :
  exists rf,
    RegionFile_init "r.0.0.mca" (Some (region_with_entry [x00; x00; x02; x01] []))
      = Ok rf
    /\ (chunks rf !! 0%nat = Some None <-> 2 < 2 \/ 1 = 0)
    /\ (2 <= 2 -> 0 < 1 ->
        chunks rf !! 0%nat = Some (Some (mkSector 2 1))
        /\ mkSector 2 1 ∈ sectors rf).
Proof.
  apply (init_slot "r.0.0.mca" (region_with_entry [x00; x00; x02; x01] []) 0).
  - vm_compute. discriminate.
  - vm_compute. reflexivity.
  - lia.
Defined.

(** C4, as first stated, fails on a header whose slot 0 holds offset 1 and
    count 1: the entry is neither [offset == 0] nor [count == 0], yet the
    slot is left empty and no sector is added to [sectors]. *)
Lemma init_slot_counterexample :
  header_offset (region_with_entry [x00; x00; x01; x01] []) 0 = 1
  /\ header_count (region_with_entry [x00; x00; x01; x01] []) 0 = 1
  /\ RegionFile_init "r.0.0.mca" (Some (region_with_entry [x00; x00; x01; x01] []))
     = Ok (mkRegionFile "r.0.0.mca" (replicate 1024 None) [mkSector 0 2]).
Proof. repeat split; vm_compute; reflexivity. Qed.

(** ** has_chunk *)

Lemma slot_index_range (x z : Z) : 0 <= slot_index x z < 1024.
Proof.
  unfold slot_index. change 31 with (Z.ones 5).
  rewrite !Z.land_ones by lia.
  pose proof (Z.mod_pos_bound x (2 ^ 5)). pose proof (Z.mod_pos_bound z (2 ^ 5)).
  lia.
Qed.

Lemma has_chunk_run (w : world) (data : list byte) (x z : Z) :
  disk w = Some data ->
  has_chunk x z w
  = (Ok (negb (header_offset data (Z.to_nat (slot_index x z)) =? 0)), w).
Proof.
  intros Hdisk. pose proof (slot_index_range x z) as Hslot.
  destruct w as [rf d]. cbn [disk] in Hdisk. subst d.
  unfold has_chunk, bind, check_exists, open_rb, lift, ret, f_seek. cbn [disk].
  destruct (Z.ltb_spec (slot_index x z * 4) 0); [lia|].
  unfold f_read, header_offset. cbn [h_data h_pos fst Z.ltb Z.compare].
  change (Z.to_nat 3) with 3%nat.
  replace (Z.to_nat (slot_index x z * 4)) with (4 * Z.to_nat (slot_index x z))%nat by lia.
  done.
Qed.

(** C10: on a valid region file [has_chunk] answers [True] exactly when the
    3-byte offset stored at the slot is non-zero, whatever the count byte;
    so a slot whose entry has a non-zero offset with count 0, or offset 1,
    is reported present although [__init__] leaves that slot empty. *)
Theorem has_chunk_offset_only (w : world) (data : list byte) (x z : Z) :
  disk w = Some data ->
  8192 <= Z.of_nat (length data) ->
  Z.of_nat (length data) mod 4096 = 0 ->
  (exists b, has_chunk x z w = (Ok b, w)
     /\ (b = true <-> header_offset data (Z.to_nat (slot_index x z)) <> 0))
  /\ (header_offset data (Z.to_nat (slot_index x z)) <> 0 ->
      header_count data (Z.to_nat (slot_index x z)) = 0
        \/ header_offset data (Z.to_nat (slot_index x z)) = 1 ->
      has_chunk x z w = (Ok true, w)
      /\ exists rf,
           RegionFile_init (filename (self w)) (Some data) = Ok rf
           /\ chunks rf !! Z.to_nat (slot_index x z) = Some None).
Proof.
  intros Hdisk Hsize Hmod. pose proof (slot_index_range x z) as Hslot.
  rewrite (has_chunk_run w data x z Hdisk). split.
  - eexists. split; [done|].
    rewrite negb_true_iff, Z.eqb_neq. done.
  - intros Hne Hodd. split.
    + f_equal. f_equal. apply negb_true_iff, Z.eqb_neq. done.
    + destruct (init_spec (filename (self w)) data) as (rf & Hinit & _ & _ & Hchunks & _).
      { by apply invalid_size_false. }
      exists rf. split; [done|]. rewrite Hchunks by lia. f_equal.
      apply header_entry_None. lia.
Qed.

Lemma has_chunk_offset_only_witness :
  has_chunk 32 (-64) stale_world = (Ok true, stale_world)
  /\ exists rf, RegionFile_init "r.0.0.mca" (Some stale_region) = Ok rf
                /\ chunks rf !! 0%nat = Some None.
Proof.
  apply (proj2 (has_chunk_offset_only stale_world stale_region 32 (-64) eq_refl
                  ltac:(vm_compute; discriminate) ltac:(vm_compute; reflexivity))).
  - vm_compute. discriminate.
  - left. vm_compute. reflexivity.
Defined.

Lemma opened_blank : opened "r.0.0.mca" blank_region = Some blank_world.
Proof. vm_compute. reflexivity. Qed.

Lemma opened_stale : opened "r.0.0.mca" stale_region = Some stale_world.
Proof. vm_compute. reflexivity. Qed.

Lemma opened_one_chunk :
  opened "r.0.0.mca" (one_chunk_region [x00; x00; x00; x01] x07)
  = Some (one_chunk_world [x00; x00; x00; x01] x07).
Proof. vm_compute. reflexivity. Qed.

(** Unfolds the monad, leaving the file and list operations in place. *)
Ltac run_M :=
  cbv [bind ret raise lift check_exists open_rb open_wb write_wb get_self
       chunk_at set_sectors set_disk disk self];
  cbn [disk self fst snd].

(** The same on a concrete object: the record projections and the small
    list functions are computed as well. *)
Ltac run_concrete :=
  cbv [bind ret raise lift check_exists open_rb open_wb write_wb get_self
       chunk_at set_sectors set_disk get_free f_seek
       disk self chunks sectors filename h_data offset count
       ne_None SectorOps.eq SectorOps.end_ result_bind first_gap last fst snd].

(** ** delete_sector *)

(** C7 (amended): on an existing file, [delete_sector] with an index
    outside [0, 1024) returns normally and changes neither the object nor
    the file; no error is raised for the index. *)
Theorem delete_sector_out_of_range (w : world) (index : Z) (zero_data : bool) :
  disk w <> None ->
  index < 0 \/ 1024 <= index ->
  delete_sector index zero_data w = (Ok tt, w).
Proof.
  intros Hdisk Hindex. destruct w as [rf [data|]]; [|done].
  unfold delete_sector. run_M.
  destruct (Z.leb_spec 0 index); destruct (Z.ltb_spec index 1024);
    cbn [andb]; (done || lia).
Qed.

Lemma delete_sector_out_of_range_witness :
  delete_sector 1024 false blank_world = (Ok tt, blank_world)
  /\ delete_sector (-1) true blank_world = (Ok tt, blank_world).
Proof.
  split.
  - apply (delete_sector_out_of_range blank_world 1024 false); [discriminate|lia].
  - apply (delete_sector_out_of_range blank_world (-1) true); [discriminate|lia].
Defined.

(** C7, as first stated, fails for index 1024 on a freshly created region
    file: the call returns [None] and raises nothing. *)
Lemma delete_sector_out_of_range_counterexample :
  ~ (0 <= 1024 < 1024)
  /\ fst (delete_sector 1024 false blank_world) = Ok tt
  /\ ~ exists e, fst (delete_sector 1024 false blank_world) = Raise e.
Proof.
  split; [lia|]. split; [reflexivity|]. intros [e He]. vm_compute in He. discriminate.
Qed.

Lemma delete_sector_empty_slot (w : world) (index : Z) (zero_data : bool) :
  disk w <> None ->
  chunks (self w) !! Z.to_nat index = Some None ->
  delete_sector index zero_data w = (Ok tt, w).
Proof.
  intros Hdisk Hslot. destruct w as [rf [data|]]; [|done].
  cbn [disk self] in *. unfold delete_sector. run_M.
  destruct ((0 <=? index) && (index <? 1024)); [|done].
  rewrite Hslot. done.
Qed.

Lemma delete_sector_present (w : world) (index : Z) (s : Sector) (zero_data : bool) :
  disk w <> None ->
  0 <= index < 1024 ->
  chunks (self w) !! Z.to_nat index = Some (Some s) ->
  delete_sector index zero_data w = (Raise AttributeError, w).
Proof.
  intros Hdisk Hindex Hslot. destruct w as [rf [data|]]; [|done].
  cbn [disk self] in *. unfold delete_sector. run_M.
  destruct (Z.leb_spec 0 index); [|lia]. destruct (Z.ltb_spec index 1024); [|lia].
  cbn [andb]. rewrite Hslot. done.
Qed.

(** C6 (the code at the failing input): on a region file whose slot 0 holds
    a chunk, [delete_sector(0)] raises [AttributeError] at [sect != None]
    and changes nothing, so [has_chunk(0, 0)] is still [True]; a second call
    does the same. *)
Theorem delete_sector_twice_raises :
  let w := one_chunk_world [x00; x00; x00; x01] x07 in
  opened "r.0.0.mca" (one_chunk_region [x00; x00; x00; x01] x07) = Some w
  /\ has_chunk 0 0 w = (Ok true, w)
  /\ delete_sector 0 false w = (Raise AttributeError, w)
  /\ has_chunk 0 0 (snd (delete_sector 0 false w)) = (Ok true, w)
  /\ delete_sector 0 false (snd (delete_sector 0 false w)) = (Raise AttributeError, w).
Proof.
  cbv zeta. split; [apply opened_one_chunk|].
  assert (Hdel : delete_sector 0 false (one_chunk_world [x00; x00; x00; x01] x07)
                 = (Raise AttributeError, one_chunk_world [x00; x00; x00; x01] x07)).
  { apply (delete_sector_present _ 0 (mkSector 2 1)); [discriminate|lia|reflexivity]. }
  rewrite Hdel. cbn [snd]. rewrite Hdel.
  assert (Hhas : has_chunk 0 0 (one_chunk_world [x00; x00; x00; x01] x07)
                 = (Ok true, one_chunk_world [x00; x00; x00; x01] x07)).
  { rewrite (has_chunk_run _ (one_chunk_region [x00; x00; x00; x01] x07)) by reflexivity.
    reflexivity. }
  rewrite Hhas. done.
Qed.

(** ** read_chunk_raw and read_chunk_tag *)

Lemma f_read_header (data : list byte) (pos : nat) :
  fst (f_read (mkHandle data pos) 4) = take 4 (drop pos data)
  /\ fst (f_read (snd (f_read (mkHandle data pos) 4)) 1)
     = take 1 (drop (pos + 4) data).
Proof.
  unfold f_read. cbn [h_data h_pos fst snd Z.ltb Z.compare].
  change (Z.to_nat 4) with 4%nat. change (Z.to_nat 1) with 1%nat.
  split; [done|]. rewrite length_take, length_drop.
  destruct (Nat.le_gt_cases (pos + 4) (length data)).
  - by rewrite Nat.min_l by lia.
  - rewrite (drop_ge data (pos + 4)) by lia.
    rewrite (drop_ge data (pos + _)) by lia. done.
Qed.

Section ReadRecords.
Context `{Collaborators}.

Lemma read_chunk_raw_absent (w : world) (data : list byte) (x z : Z) :
  disk w = Some data ->
  header_offset data (Z.to_nat (slot_index x z)) = 0 ->
  read_chunk_raw x z w = (Ok None, w).
Proof.
  intros Hdisk Hoff. pose proof (slot_index_range x z) as Hslot.
  destruct w as [rf d]. cbn [disk] in Hdisk. subst d.
  unfold read_chunk_raw. run_M. unfold f_seek at 1.
  destruct (Z.ltb_spec (slot_index x z * 4) 0); [lia|].
  unfold f_read at 1. cbn [h_data h_pos Z.ltb Z.compare].
  change (Z.to_nat 3) with 3%nat.
  replace (Z.to_nat (slot_index x z * 4)) with (4 * Z.to_nat (slot_index x z))%nat by lia.
  fold (header_offset data (Z.to_nat (slot_index x z))). rewrite Hoff. done.
Qed.

Lemma read_chunk_tag_absent (w : world) (data : list byte) (x z : Z) :
  disk w = Some data ->
  header_offset data (Z.to_nat (slot_index x z)) = 0 ->
  read_chunk_tag x z w = (Ok None, w).
Proof.
  intros Hdisk Hoff. pose proof (slot_index_range x z) as Hslot.
  destruct w as [rf d]. cbn [disk] in Hdisk. subst d.
  unfold read_chunk_tag. run_M. unfold f_seek at 1.
  destruct (Z.ltb_spec (slot_index x z * 4) 0); [lia|].
  unfold f_read at 1. cbn [h_data h_pos Z.ltb Z.compare].
  change (Z.to_nat 3) with 3%nat.
  replace (Z.to_nat (slot_index x z * 4)) with (4 * Z.to_nat (slot_index x z))%nat by lia.
  fold (header_offset data (Z.to_nat (slot_index x z))). rewrite Hoff. done.
Qed.

(** C5 (amended): when the table offset of the slot is non-zero and the
    compression type stored in the record is none of 1, 2 and 3,
    [read_chunk_raw] and [read_chunk_tag] return [None], the result they
    give for an absent chunk; no error is raised and the file and the
    object are unchanged. *)
Theorem read_unknown_compression_type (w : world) (data : list byte) (x z : Z) :
  disk w = Some data ->
  header_offset data (Z.to_nat (slot_index x z)) <> 0 ->
  record_type data (header_offset data (Z.to_nat (slot_index x z))) <> 1 ->
  record_type data (header_offset data (Z.to_nat (slot_index x z))) <> 2 ->
  record_type data (header_offset data (Z.to_nat (slot_index x z))) <> 3 ->
  read_chunk_raw x z w = (Ok None, w) /\ read_chunk_tag x z w = (Ok None, w).
Proof.
  intros Hdisk Hoff H1 H2 H3. pose proof (slot_index_range x z) as Hslot.
  destruct w as [rf d]. cbn [disk] in Hdisk. subst d.
  pose proof (int_from_bytes_nonneg
                (take 3 (drop (4 * Z.to_nat (slot_index x z)) data))) as Hnn.
  fold (header_offset data (Z.to_nat (slot_index x z))) in Hnn.
  unfold record_type in H1, H2, H3.
  split.
  - unfold read_chunk_raw. run_M. unfold f_seek.
    destruct (Z.ltb_spec (slot_index x z * 4) 0); [lia|].
    unfold f_read at 1. cbn [h_data h_pos Z.ltb Z.compare].
    change (Z.to_nat 3) with 3%nat.
    replace (Z.to_nat (slot_index x z * 4)) with (4 * Z.to_nat (slot_index x z))%nat by lia.
    fold (header_offset data (Z.to_nat (slot_index x z))).
    set (off := header_offset data (Z.to_nat (slot_index x z))) in *.
    destruct (Z.eqb_spec off 0); [done|].
    destruct (Z.ltb_spec (off * 4096) 0); [lia|]. cbn [h_data].
    destruct (f_read_header data (Z.to_nat (off * 4096))) as [_ Htype].
    destruct (f_read {| h_data := data; h_pos := Z.to_nat (off * 4096) |} 4) as [b4 f4].
    cbn [snd] in Htype.
    destruct (f_read f4 1) as [b1 f1]. cbn [fst] in Htype. subst b1.
    destruct (Z.eqb_spec (int_from_bytes (take 1 (drop (Z.to_nat (off * 4096) + 4) data))) 2); [done|].
    destruct (Z.eqb_spec (int_from_bytes (take 1 (drop (Z.to_nat (off * 4096) + 4) data))) 1); [done|].
    destruct (Z.eqb_spec (int_from_bytes (take 1 (drop (Z.to_nat (off * 4096) + 4) data))) 3); [done|].
    done.
  - unfold read_chunk_tag. run_M. unfold f_seek.
    destruct (Z.ltb_spec (slot_index x z * 4) 0); [lia|].
    unfold f_read at 1. cbn [h_data h_pos Z.ltb Z.compare].
    change (Z.to_nat 3) with 3%nat.
    replace (Z.to_nat (slot_index x z * 4)) with (4 * Z.to_nat (slot_index x z))%nat by lia.
    fold (header_offset data (Z.to_nat (slot_index x z))).
    set (off := header_offset data (Z.to_nat (slot_index x z))) in *.
    destruct (Z.eqb_spec off 0); [done|].
    destruct (Z.ltb_spec (off * 4096) 0); [lia|]. cbn [h_data].
    destruct (f_read_header data (Z.to_nat (off * 4096))) as [_ Htype].
    destruct (f_read {| h_data := data; h_pos := Z.to_nat (off * 4096) |} 4) as [b4 f4].
    cbn [snd] in Htype.
    destruct (f_read f4 1) as [b1 f1]. cbn [fst] in Htype. subst b1.
    destruct (Z.eqb_spec (int_from_bytes (take 1 (drop (Z.to_nat (off * 4096) + 4) data))) 2); [done|].
    destruct (Z.eqb_spec (int_from_bytes (take 1 (drop (Z.to_nat (off * 4096) + 4) data))) 1); [done|].
    destruct (Z.eqb_spec (int_from_bytes (take 1 (drop (Z.to_nat (off * 4096) + 4) data))) 3); [done|].
    done.
Qed.

End ReadRecords.

Lemma read_unknown_compression_type_witness :
  @read_chunk_raw stored_collaborators 0 0 (one_chunk_world [x00; x00; x00; x01] x07)
    = (Ok None, one_chunk_world [x00; x00; x00; x01] x07)
  /\ @read_chunk_tag stored_collaborators 0 0 (one_chunk_world [x00; x00; x00; x01] x07)
    = (Ok None, one_chunk_world [x00; x00; x00; x01] x07).
Proof.
  apply (@read_unknown_compression_type stored_collaborators
           (one_chunk_world [x00; x00; x00; x01] x07)
           (one_chunk_region [x00; x00; x00; x01] x07) 0 0 eq_refl);
    vm_compute; discriminate.
Defined.

(** C5, as first stated, fails on a record whose compression type is 7:
    the table offset is 2, the type is none of 1, 2, 3, and both readers
    return [None] without raising. *)
Lemma read_unknown_compression_type_counterexample :
  header_offset (one_chunk_region [x00; x00; x00; x01] x07) 0 = 2
  /\ record_type (one_chunk_region [x00; x00; x00; x01] x07) 2 = 7
  /\ fst (@read_chunk_raw stored_collaborators 0 0
            (one_chunk_world [x00; x00; x00; x01] x07)) = Ok None
  /\ fst (@read_chunk_tag stored_collaborators 0 0
            (one_chunk_world [x00; x00; x00; x01] x07)) = Ok None.
Proof. repeat split; vm_compute; reflexivity. Qed.

(** ** write_chunk_tag *)

Lemma page_count_bounds (n : Z) :
  n <= page_count n * 4096 < n + 4096.
Proof.
  unfold page_count.
  pose proof (Z_div_mod_eq_full (- n) 4096).
  pose proof (Z.mod_pos_bound (- n) 4096). lia.
Qed.

Lemma f_write_hole (p : nat) (bs : list byte) :
  bs <> [] ->
  f_write (mkHandle [] p) bs = mkHandle (replicate p x00 ++ bs) (p + length bs).
Proof.
  intros Hbs. unfold f_write. destruct bs as [|b bs]; [done|].
  cbn [h_data h_pos length]. rewrite take_nil, drop_nil, Nat.sub_0_r.
  by rewrite app_nil_r.
Qed.

Lemma f_write_end (data bs : list byte) :
  f_write (mkHandle data (length data)) bs
  = mkHandle (data ++ bs) (length data + length bs).
Proof.
  unfold f_write. destruct bs as [|b bs].
  - by rewrite app_nil_r, Nat.add_0_r.
  - cbn [h_data h_pos]. rewrite firstn_all, Nat.sub_diag, drop_ge by lia.
    cbn [replicate app]. by rewrite app_nil_r.
Qed.

Lemma header_offset_blank (rest : list byte) (i : nat) :
  (i < 1024)%nat -> header_offset (blank_region ++ rest) i = 0.
Proof.
  intros Hi. unfold header_offset, blank_region.
  rewrite drop_app_le by (rewrite length_replicate; lia).
  rewrite drop_replicate.
  rewrite take_app_le by (rewrite length_replicate; lia).
  rewrite take_replicate. rewrite Nat.min_l by lia. reflexivity.
Qed.

Section WriteRecords.
Context `{Collaborators}.

Lemma write_chunk_tag_blank (x z : Z) (chunk_tag : nbt_tag) :
  write_chunk_tag x z chunk_tag blank_world
  = (Raise TypeError,
     mkWorld
       (mkRegionFile "r.0.0.mca" (replicate 1024 None)
          (insort [mkSector 0 2]
             (mkSector 2 (page_count (len (zlib_compress (nbt_dump chunk_tag)) + 5)))))
       (Some [])).
Proof.
  pose proof (slot_index_range x z) as Hslot.
  unfold write_chunk_tag, blank_world, empty_object. run_concrete.
  rewrite lookup_replicate_2 by lia. run_concrete.
  change ((0 + 2) * 4096 <? 0) with false. cbv iota.
  unfold int_to_bytes_positional. reflexivity.
Qed.

(** C1 (the code at the failing input): on a freshly created region file,
    [write_chunk_tag(x, z, d)] allocates a sector, opens the file with
    ['wb'], which empties it, and raises [TypeError] at
    [(len(chunk_data) + 1).to_bytes(4, 'big', False)]: nothing is written,
    the file is left with 0 bytes and [chunks] is unchanged.  So
    [read_chunk_tag(x, z)] returns [None], [has_chunk(x, z)] is [False], and
    the file can no longer be opened as a region file. *)
Theorem write_then_read_blank (x z : Z) (chunk_tag : nbt_tag) :
  exists w',
    write_chunk_tag x z chunk_tag blank_world = (Raise TypeError, w')
    /\ disk w' = Some []
    /\ chunks (self w') = chunks (self blank_world)
    /\ sectors (self w')
       = insort [mkSector 0 2]
           (mkSector 2 (page_count (len (zlib_compress (nbt_dump chunk_tag)) + 5)))
    /\ read_chunk_tag x z w' = (Ok None, w')
    /\ has_chunk x z w' = (Ok false, w')
    /\ RegionFile_init (filename (self w')) (disk w')
       = Raise (Exception_ "Invalid region file!").
Proof.
  pose proof (slot_index_range x z) as Hslot.
  assert (Hempty : forall i, header_offset [] i = 0).
  { intros i. unfold header_offset. by rewrite drop_nil, take_nil. }
  eexists. split; [apply write_chunk_tag_blank|].
  split; [reflexivity|]. split; [reflexivity|]. split; [reflexivity|].
  split; [|split].
  - eapply read_chunk_tag_absent; [reflexivity|]. apply Hempty.
  - erewrite has_chunk_run by reflexivity. rewrite Hempty. reflexivity.
  - reflexivity.
Qed.

End WriteRecords.

Lemma write_then_read_blank_witness :
  exists w',
    @write_chunk_tag stored_collaborators 3 5 [x0a; x00; x00; x00] blank_world
    = (Raise TypeError, w')
    /\ disk w' = Some []
    /\ chunks (self w') = chunks (self blank_world)
    /\ sectors (self w') = [mkSector 0 2; mkSector 2 1]
    /\ @read_chunk_tag stored_collaborators 3 5 w' = (Ok None, w')
    /\ has_chunk 3 5 w' = (Ok false, w')
    /\ RegionFile_init (filename (self w')) (disk w')
       = Raise (Exception_ "Invalid region file!").
Proof.
  apply (@write_then_read_blank stored_collaborators 3 5 [x0a; x00; x00; x00]).
Defined.

(** ** bisect_right on a list in offset order *)

Lemma bisect_right_loop_spec (a : list Sector) (x : Sector) (fuel : nat) :
  forall lo hi : nat,
    (lo <= hi <= length a)%nat ->
    (hi - lo <= fuel)%nat ->
    (forall j k aj ak, (j <= k)%nat -> a !! j = Some aj -> a !! k = Some ak ->
       SectorOps.lt x aj = true -> SectorOps.lt x ak = true) ->
    (forall j aj, (j < lo)%nat -> a !! j = Some aj -> SectorOps.lt x aj = false) ->
    (forall j aj, (hi <= j)%nat -> a !! j = Some aj -> SectorOps.lt x aj = true) ->
    let p := bisect_right_loop fuel a x lo hi in
    (lo <= p <= hi)%nat
    /\ (forall j aj, (j < p)%nat -> a !! j = Some aj -> SectorOps.lt x aj = false)
    /\ (forall j aj, (p <= j)%nat -> a !! j = Some aj -> SectorOps.lt x aj = true).
Proof.
  induction fuel as [|fuel IH]; intros lo hi Hrange Hfuel Hmono Hlo Hhi; cbn zeta.
  - cbn [bisect_right_loop]. assert (lo = hi) as -> by lia. auto with lia.
  - cbn [bisect_right_loop]. destruct (Nat.ltb_spec lo hi) as [Hlt|Hge].
    + pose proof (Nat.div_mod_eq (lo + hi) 2) as Hdm.
      pose proof (Nat.mod_upper_bound (lo + hi) 2 ltac:(lia)) as Hmod.
      set (mid := ((lo + hi) / 2)%nat) in *.
      assert (Hmid : (lo <= mid < hi)%nat) by lia.
      destruct (lookup_lt_is_Some_2 a mid ltac:(lia)) as [am Ham]. rewrite Ham.
      destruct (SectorOps.lt x am) eqn:Hcmp.
      * destruct (IH lo mid) as (Hp & Hbelow & Habove); try lia; try done.
        { intros j aj Hj Haj. by apply (Hmono mid j am aj). }
        split; [lia|done].
      * destruct (IH (mid + 1)%nat hi) as (Hp & Hbelow & Habove); try lia; try done.
        { intros j aj Hj Haj. destruct (SectorOps.lt x aj) eqn:Hcmpj; [|done].
          rewrite (Hmono j mid aj am) in Hcmp; [done|lia|done..]. }
        split; [lia|done].
    + assert (lo = hi) as -> by lia. auto with lia.
Qed.

(** The loop never runs out of turns: a larger budget changes nothing. *)
Lemma bisect_right_loop_fuel (a : list Sector) (x : Sector) (fuel : nat) :
  forall (extra lo hi : nat),
    (lo <= hi <= length a)%nat ->
    (hi - lo <= fuel)%nat ->
    bisect_right_loop (fuel + extra) a x lo hi = bisect_right_loop fuel a x lo hi.
Proof.
  induction fuel as [|fuel IH]; intros extra lo hi Hrange Hfuel.
  - assert (lo = hi) as -> by lia. cbn [bisect_right_loop Nat.add].
    destruct extra; cbn [bisect_right_loop]; [done|].
    destruct (Nat.ltb_spec hi hi); [lia|done].
  - cbn [bisect_right_loop Nat.add]. destruct (Nat.ltb_spec lo hi) as [Hlt|Hge]; [|done].
    pose proof (Nat.div_mod_eq (lo + hi) 2) as Hdm.
    pose proof (Nat.mod_upper_bound (lo + hi) 2 ltac:(lia)) as Hmod.
    set (mid := ((lo + hi) / 2)%nat) in *.
    destruct (a !! mid) as [am|]; [|done].
    destruct (SectorOps.lt x am); apply IH; lia.
Qed.

(** ** Lists of sectors in offset order *)

Lemma chained_tail (a : Sector) (l : list Sector) : chained (a :: l) -> chained l.
Proof. destruct l as [|b l]; cbn; tauto. Qed.

Lemma chained_after_head (l : list Sector) :
  forall a t,
    chained (a :: l) -> Forall (fun s => 0 < count s) (a :: l) ->
    t ∈ l -> SectorOps.end_ a <= offset t.
Proof.
  induction l as [|b l IH]; intros a t Hch Hpos Ht.
  - by apply elem_of_nil in Ht.
  - destruct Hch as [Hab Hch]. apply elem_of_cons in Ht as [->|Ht]; [done|].
    apply Forall_cons in Hpos as [_ Hpos].
    pose proof (IH b t Hch Hpos Ht) as Hbt.
    apply Forall_cons in Hpos as [Hb _]. unfold SectorOps.end_ in *. lia.
Qed.

Lemma chained_offsets_mono (l : list Sector) :
  forall j k aj ak,
    chained l -> Forall (fun s => 0 < count s) l ->
    (j <= k)%nat -> l !! j = Some aj -> l !! k = Some ak ->
    offset aj <= offset ak.
Proof.
  induction l as [|a l IH]; intros j k aj ak Hch Hpos Hjk Hj Hk; [done|].
  destruct j as [|j].
  - cbn in Hj. injection Hj as <-. destruct k as [|k].
    + cbn in Hk. injection Hk as <-. lia.
    + cbn in Hk. apply list_elem_of_lookup_2 in Hk.
      pose proof (chained_after_head l a ak Hch Hpos Hk) as Hle.
      apply Forall_cons in Hpos as [Ha _]. unfold SectorOps.end_ in Hle. lia.
  - destruct k as [|k]; [lia|]. cbn in Hj, Hk.
    apply (IH j k); [by eapply chained_tail|by eapply Forall_cons|lia|done..].
Qed.

Lemma chained_insert (s : Sector) (l1 l2 : list Sector) :
  chained (l1 ++ l2) ->
  (forall t, t ∈ l1 -> SectorOps.end_ t <= offset s) ->
  (forall t, t ∈ l2 -> SectorOps.end_ s <= offset t) ->
  chained (l1 ++ s :: l2).
Proof.
  induction l1 as [|a l1 IH]; intros Hch Hleft Hright.
  - cbn [app] in *. destruct l2 as [|b l2]; [done|]. split; [|done].
    apply Hright. left.
  - assert (Htail : chained (l1 ++ s :: l2)).
    { apply IH; [by eapply chained_tail|..|done].
      intros t Ht. apply Hleft. by right. }
    destruct l1 as [|a' l1].
    + cbn [app]. split; [|done]. apply Hleft. left.
    + cbn [app] in *. split; [|done]. apply Hch.
Qed.

(** ** first fit *)

Lemma intersects_false_before (s t : Sector) :
  0 < count t -> SectorOps.end_ t <= offset s ->
  SectorOps.intersects s t = false /\ SectorOps.intersects t s = false.
Proof.
  intros Ht Hts. unfold SectorOps.intersects, SectorOps.end_ in *.
  repeat match goal with
         | |- context [?a <=? ?b] => destruct (Z.leb_spec a b)
         | |- context [?a >? ?b] => rewrite (Z.gtb_ltb a b); destruct (Z.ltb_spec b a)
         end; cbn [andb]; (split; [done || lia | done || lia]).
Qed.

Lemma intersects_false_after (s t : Sector) :
  0 < count s -> SectorOps.end_ s <= offset t ->
  SectorOps.intersects s t = false /\ SectorOps.intersects t s = false.
Proof.
  intros Hs Hst. destruct (intersects_false_before t s Hs Hst). done.
Qed.

Lemma intersects_false_inv (s t : Sector) :
  0 < count s -> 0 < count t ->
  SectorOps.intersects s t = false ->
  SectorOps.end_ s <= offset t \/ SectorOps.end_ t <= offset s.
Proof.
  intros Hs Ht. unfold SectorOps.intersects, SectorOps.end_ in *.
  repeat match goal with
         | |- context [?a <=? ?b] => destruct (Z.leb_spec a b)
         | |- context [?a >? ?b] => rewrite (Z.gtb_ltb a b); destruct (Z.ltb_spec b a)
         end; cbn [andb]; intros; (done || lia).
Qed.

Lemma chosen_first_fit (l : list Sector) (c : Z) :
  forall a s,
    0 < c ->
    chained (a :: l) -> Forall (fun s => 0 < count s) (a :: l) ->
    chosen (a :: l) c s ->
    count s = c
    /\ SectorOps.end_ a <= offset s
    /\ disjoint_from s (a :: l)
    /\ forall p, SectorOps.end_ a <= p < offset s ->
         exists t, t ∈ l /\ SectorOps.intersects (mkSector p c) t = true.
Proof.
  induction l as [|b l IH]; intros a s Hc Hch Hpos Hs.
  - unfold chosen in Hs. cbn in Hs. destruct Hs as (e & [= <-] & ->).
    cbn [count offset]. split; [done|]. split; [lia|]. split.
    + intros t Ht. apply list_elem_of_singleton in Ht as ->.
      apply intersects_false_before; [by apply Forall_cons in Hpos as [? _]|done].
    + intros p Hp. lia.
  - pose proof Hpos as Hpos'. apply Forall_cons in Hpos' as [Ha Hposl].
    pose proof Hposl as Hposl'. apply Forall_cons in Hposl' as [Hb _].
    pose proof Hch as [Hab Hchl].
    unfold chosen in Hs.
    change (first_gap (a :: b :: l) c)
      with (if offset b - SectorOps.end_ a >=? c
            then Some (mkSector (SectorOps.end_ a) c)
            else first_gap (b :: l) c) in Hs.
    rewrite Z.geb_leb in Hs.
    destruct (Z.leb_spec c (offset b - SectorOps.end_ a)) as [Hgap|Hgap].
    + subst s. cbn [count offset]. split; [done|]. split; [lia|]. split.
      * intros t Ht. apply elem_of_cons in Ht as [->|Ht].
        { by apply intersects_false_before. }
        apply intersects_false_after; [done|]. unfold SectorOps.end_ at 1.
        cbn [offset count]. apply elem_of_cons in Ht as [->|Ht]; [lia|].
        pose proof (chained_after_head l b t Hchl Hposl Ht).
        unfold SectorOps.end_ in *. lia.
      * intros p Hp. lia.
    + assert (Hs' : chosen (b :: l) c s).
      { unfold chosen. destruct (first_gap (b :: l) c); [done|].
        destruct Hs as (e & He & ->). exists e. split; [|done].
        by rewrite last_cons_cons in He. }
      destruct (IH b s Hc Hchl Hposl Hs') as (Hcount & Hstart & Hdis & Hmin).
      split; [done|]. unfold SectorOps.end_ in *.
      split; [lia|]. split.
      * intros t Ht. apply elem_of_cons in Ht as [->|Ht]; [|by apply Hdis].
        apply intersects_false_before; [done|]. unfold SectorOps.end_. lia.
      * intros p Hp. destruct (Z.lt_ge_cases p (offset b + count b)) as [Hpb|Hpb].
        { exists b. split; [left|].
          unfold SectorOps.intersects, SectorOps.end_. cbn [offset count].
          destruct (Z.leb_spec p (offset b)); cbn [andb].
          - rewrite Z.gtb_ltb. destruct (Z.ltb_spec (offset b) (p + c)); [done|lia].
          - destruct (Z.leb_spec (offset b) p); [|lia]. cbn [andb].
            rewrite Z.gtb_ltb. destruct (Z.ltb_spec p (offset b + count b)); [done|lia]. }
        destruct (Hmin p ltac:(lia)) as (t & Ht & Hint).
        exists t. split; [by right|done].
Qed.

(** ** insort keeps the list in order *)

Lemma bisect_right_spec (l : list Sector) (s : Sector) :
  chained l -> Forall (fun t => 0 < count t) l ->
  (bisect_right l s <= length l)%nat
  /\ (forall t, t ∈ take (bisect_right l s) l -> SectorOps.lt s t = false)
  /\ (forall t, t ∈ drop (bisect_right l s) l -> SectorOps.lt s t = true).
Proof.
  intros Hch Hpos. unfold bisect_right.
  destruct (bisect_right_loop_spec l s (length l) 0 (length l))
    as (Hp & Hbelow & Habove).
  - lia.
  - lia.
  - intros j k aj ak Hjk Hj Hk. unfold SectorOps.lt. rewrite !Z.leb_le.
    pose proof (chained_offsets_mono l j k aj ak Hch Hpos Hjk Hj Hk). lia.
  - intros j aj Hj. lia.
  - intros j aj Hj Haj. apply lookup_lt_Some in Haj. lia.
  - split; [lia|]. split.
    + intros t Ht. apply elem_of_take in Ht as (j & Hj & Hlt). by apply (Hbelow j).
    + intros t Ht. apply list_elem_of_lookup in Ht as (j & Hj).
      rewrite lookup_drop in Hj. eapply Habove; [|exact Hj]. lia.
Qed.

Lemma insort_well_formed (l : list Sector) (s : Sector) :
  well_formed l -> 0 < count s -> 2 <= offset s -> disjoint_from s l ->
  well_formed (insort l s).
Proof.
  intros ([rest ->] & Hpos & Hch) Hs Hoff Hdis.
  destruct (bisect_right_spec (mkSector 0 2 :: rest) s Hch Hpos) as (Hlen & Hbelow & Habove).
  unfold insort. set (p := bisect_right (mkSector 0 2 :: rest) s) in *.
  assert (Hp : (0 < p)%nat).
  { destruct p as [|p]; [|lia]. cbn [drop] in Habove.
    specialize (Habove (mkSector 0 2) ltac:(left)).
    unfold SectorOps.lt in Habove. cbn [offset] in Habove.
    apply Z.leb_le in Habove. lia. }
  split; [|split].
  - destruct p as [|p]; [lia|]. cbn [take app]. eauto.
  - apply Forall_app. split; [by apply Forall_take|].
    apply Forall_cons. split; [done|by apply Forall_drop].
  - apply chained_insert.
    + by rewrite take_drop.
    + intros t Ht. pose proof (Hbelow t Ht) as Hcmp.
      assert (Hin : t ∈ mkSector 0 2 :: rest).
      { apply elem_of_take in Ht as (j & Hj & _). by eapply list_elem_of_lookup_2. }
      assert (Ht0 : 0 < count t) by (by eapply Forall_forall in Hpos).
      destruct (Hdis t Hin) as [Hst _].
      destruct (intersects_false_inv s t Hs Ht0 Hst) as [Hbad|Hok]; [|done].
      unfold SectorOps.lt in Hcmp. apply Z.leb_gt in Hcmp.
      unfold SectorOps.end_ in Hbad. lia.
    + intros t Ht. pose proof (Habove t Ht) as Hcmp.
      unfold SectorOps.lt in Hcmp. apply Z.leb_le in Hcmp. done.
Qed.

(** ** get_free *)

Lemma page_count_pos (n : Z) : 0 < n -> 0 < page_count n.
Proof. intros Hn. pose proof (page_count_bounds n). lia. Qed.

Lemma well_formed_chosen (l : list Sector) (c : Z) :
  well_formed l -> exists s, chosen l c s.
Proof.
  intros ([rest ->] & _ & _). unfold chosen.
  destruct (first_gap (mkSector 0 2 :: rest) c) as [g|]; [eauto|].
  destruct (last (mkSector 0 2 :: rest)) as [e|] eqn:He; [eauto|].
  by apply last_None in He.
Qed.

Lemma chosen_is_first_fit (l : list Sector) (c : Z) (s : Sector) :
  well_formed l -> 0 < c -> chosen l c s ->
  count s = c /\ first_fit l s.
Proof.
  intros ([rest ->] & Hpos & Hch) Hc Hs.
  destruct (chosen_first_fit rest c (mkSector 0 2) s Hc Hch Hpos Hs)
    as (Hcount & Hstart & Hdis & Hmin).
  change (SectorOps.end_ (mkSector 0 2)) with 2 in *.
  split; [done|]. split; [done|]. split; [done|].
  intros p Hp. destruct (Hmin p Hp) as (t & Ht & Hint).
  exists t. rewrite Hcount. split; [by right|done].
Qed.

Lemma get_free_chosen (w : world) (size_in_bytes : Z) (insert : bool) (s : Sector) :
  chosen (sectors (self w)) (page_count size_in_bytes) s ->
  get_free size_in_bytes insert w
  = (Ok s,
     if insert
     then mkWorld (mkRegionFile (filename (self w)) (chunks (self w))
                     (insort (sectors (self w)) s)) (disk w)
     else w).
Proof.
  unfold chosen, get_free. run_M. destruct w as [rf d]. cbn [self disk].
  destruct (first_gap (sectors rf) (page_count size_in_bytes)) as [g|].
  - intros ->. by destruct insert.
  - intros (e & -> & ->). by destruct insert.
Qed.

Lemma allocations_run (sizes : list Z) :
  forall w : world,
    well_formed (sectors (self w)) ->
    Forall (fun n => 0 < n <= 2 ^ 53) sizes ->
    exists log w',
      allocations sizes w = (Ok log, w')
      /\ first_fit_run (sectors (self w)) sizes log
      /\ well_formed (sectors (self w')).
Proof.
  induction sizes as [|size sizes IH]; intros w Hwf Hsizes.
  - exists [], w. done.
  - apply Forall_cons in Hsizes as [Hsize Hsizes].
    destruct (well_formed_chosen (sectors (self w)) (page_count size) Hwf) as [s Hs].
    destruct (chosen_is_first_fit _ _ s Hwf (page_count_pos size ltac:(lia)) Hs)
      as [Hcount Hfit].
    pose proof (get_free_chosen w size true s Hs) as Hget. cbv iota in Hget.
    set (w1 := mkWorld _ _) in Hget.
    assert (Hwf1 : well_formed (sectors (self w1))).
    { cbn [w1 self sectors]. destruct Hfit as (Hdis & Hoff & _).
      apply insort_well_formed; try done.
      rewrite Hcount. apply page_count_pos. lia. }
    destruct (IH w1 Hwf1 Hsizes) as (log & w' & Hrun & Hlog & Hwf').
    exists ((sectors (self w), s) :: log), w'. split; [|split; [|done]].
    + cbn [allocations]. unfold bind at 1. unfold get_self at 1.
      unfold bind at 1. rewrite Hget. unfold bind at 1. rewrite Hrun. done.
    + cbn [first_fit_run]. split; [done|]. split; [done|]. split; [done|].
      exists (insort (sectors (self w)) s). split; [apply insort_perm|done].
Qed.

(** C2 (amended): from a [sectors] list in order (header pages first, no overlap,
    every sector at least one page), a run of [get_free] calls for positive
    sizes with nothing in between succeeds; each returned sector intersects
    no sector of the list the call found, which holds the sectors returned
    before, and its offset is the smallest page [>= 2] at which a sector of
    the requested page count intersects none of them; the list stays in
    order.  On a freshly created 8192-byte file [get_free(4096)] returns
    [Sector(2, 1)]. *)
Theorem allocations_first_fit (w : world) (sizes : list Z) :
  well_formed (sectors (self w)) ->
  Forall (fun n => 0 < n <= 2 ^ 53) sizes ->
  (exists log w',
     allocations sizes w = (Ok log, w')
     /\ first_fit_run (sectors (self w)) sizes log
     /\ well_formed (sectors (self w')))
  /\ opened "r.0.0.mca" blank_region = Some blank_world
  /\ fst (get_free 4096 true blank_world) = Ok (mkSector 2 1).
Proof.
  intros Hwf Hsizes. split; [by apply allocations_run|].
  split; [apply opened_blank|reflexivity].
Qed.

Lemma blank_well_formed : well_formed (sectors (self blank_world)).
Proof.
  split; [by exists []|]. split; [|done].
  apply Forall_singleton. done.
Qed.

Lemma allocations_first_fit_witness :
  (exists log w',
     allocations [4096; 10000] blank_world = (Ok log, w')
     /\ first_fit_run [mkSector 0 2] [4096; 10000] log
     /\ well_formed (sectors (self w')))
  /\ opened "r.0.0.mca" blank_region = Some blank_world
  /\ fst (get_free 4096 true blank_world) = Ok (mkSector 2 1).
Proof.
  apply (allocations_first_fit blank_world [4096; 10000]).
  - apply blank_well_formed.
  - repeat constructor; lia.
Defined.

(** C2, as first stated, fails in two ways.  On a freshly created file,
    [get_free(0)] returns [Sector(2, 0)] and the next [get_free(4096)]
    returns [Sector(2, 1)], which [intersects] the [Sector(2, 0)] already in
    the list.  On a file whose slots 0 and 1 hold (offset 2, count 3) and
    (offset 3, count 1), [__init__] builds [Sector(0, 2), Sector(2, 3),
    Sector(3, 1)] and [get_free(4096)] returns [Sector(4, 1)], which
    intersects [Sector(2, 3)]. *)
Lemma allocations_first_fit_counterexample :
  fst (allocations [0; 4096] blank_world)
  = Ok [([mkSector 0 2], mkSector 2 0);
        ([mkSector 0 2; mkSector 2 0], mkSector 2 1)]
  /\ SectorOps.intersects (mkSector 2 1) (mkSector 2 0) = true
  /\ RegionFile_init "r.0.0.mca"
       (Some (region_with_entry [x00; x00; x02; x03; x00; x00; x03; x01] []))
     = Ok (mkRegionFile "r.0.0.mca"
             (<[0%nat := Some (mkSector 2 3)]>
                (<[1%nat := Some (mkSector 3 1)]> (replicate 1024 None)))
             [mkSector 0 2; mkSector 2 3; mkSector 3 1])
  /\ fst (get_free 4096 true
            (mkWorld
               (mkRegionFile "r.0.0.mca"
                  (<[0%nat := Some (mkSector 2 3)]>
                     (<[1%nat := Some (mkSector 3 1)]> (replicate 1024 None)))
                  [mkSector 0 2; mkSector 2 3; mkSector 3 1])
               (Some (region_with_entry [x00; x00; x02; x03; x00; x00; x03; x01] []))))
     = Ok (mkSector 4 1)
  /\ SectorOps.intersects (mkSector 4 1) (mkSector 2 3) = true.
Proof. repeat split; vm_compute; reflexivity. Qed.

Example allocations_blank :
  fst (allocations [4096; 10000; 1] blank_world)
  = Ok [([mkSector 0 2], mkSector 2 1);
        ([mkSector 0 2; mkSector 2 1], mkSector 3 3);
        ([mkSector 0 2; mkSector 2 1; mkSector 3 3], mkSector 6 1)].
Proof. vm_compute. reflexivity. Qed.

(** [first_gap] read by index, as the loop of [get_free] is written: the
    result is the gap after the first [i] with
    [sectors[i+1].offset - sectors[i].end >= sector_count]. *)
Lemma first_gap_Some (l : list Sector) (c : Z) (s : Sector) :
  first_gap l c = Some s ->
  exists (i : nat) cur next,
    l !! i = Some cur /\ l !! S i = Some next
    /\ c <= offset next - SectorOps.end_ cur
    /\ s = mkSector (SectorOps.end_ cur) c
    /\ forall (j : nat) cur' next', (j < i)%nat ->
         l !! j = Some cur' -> l !! S j = Some next' ->
         offset next' - SectorOps.end_ cur' < c.
Proof.
  induction l as [|a l IH]; [done|]. destruct l as [|b l]; [done|].
  change (first_gap (a :: b :: l) c)
    with (if offset b - SectorOps.end_ a >=? c
          then Some (mkSector (SectorOps.end_ a) c)
          else first_gap (b :: l) c).
  rewrite Z.geb_leb. destruct (Z.leb_spec c (offset b - SectorOps.end_ a)) as [Hgap|Hgap].
  - intros [= <-]. exists 0%nat, a, b. repeat split; try done. intros j ? ? Hj. lia.
  - intros Hs. destruct (IH Hs) as (i & cur & next & Hi & HSi & Hfit & -> & Hfirst).
    exists (S i), cur, next. repeat split; try done.
    intros [|j] cur' next' Hj Hcur Hnext.
    + cbn in Hcur, Hnext. injection Hcur as <-. injection Hnext as <-. lia.
    + apply (Hfirst j); [lia|done..].
Qed.

Lemma first_gap_None (l : list Sector) (c : Z) :
  first_gap l c = None ->
  forall (i : nat) cur next,
    l !! i = Some cur -> l !! S i = Some next ->
    offset next - SectorOps.end_ cur < c.
Proof.
  induction l as [|a l IH]; [done|]. destruct l as [|b l]; [done|].
  change (first_gap (a :: b :: l) c)
    with (if offset b - SectorOps.end_ a >=? c
          then Some (mkSector (SectorOps.end_ a) c)
          else first_gap (b :: l) c).
  rewrite Z.geb_leb. destruct (Z.leb_spec c (offset b - SectorOps.end_ a)) as [Hgap|Hgap];
    [done|].
  intros Hnone [|i] cur next Hcur Hnext.
  - cbn in Hcur, Hnext. injection Hcur as <-. injection Hnext as <-. lia.
  - by apply (IH Hnone i).
Qed.

(** ** The list built by __init__ is in order when the header is consistent *)

Lemma header_entry_valid (data : list byte) (i : nat) (s : Sector) :
  header_entry data i = Some s -> 2 <= offset s /\ 0 < count s.
Proof.
  unfold header_entry. rewrite Z.geb_leb, Z.gtb_ltb.
  destruct (Z.leb_spec 2 (header_offset data i)); [|done].
  destruct (Z.ltb_spec 0 (header_count data i)); [|done].
  intros [= <-]. done.
Qed.

Lemma init_loop_well_formed (data : list byte) (n : nat) :
  forall (i : nat) chunks sectors,
    (4 * (i + n) <= length data)%nat ->
    (i + n <= 1024)%nat ->
    consistent_header data ->
    well_formed sectors ->
    (forall t, t ∈ sectors ->
       t = mkSector 0 2 \/ exists j, (j < i)%nat /\ header_entry data j = Some t) ->
    well_formed
      (snd (fold_left init_step (seq i n) (mkHandle data (4 * i), chunks, sectors))).
Proof.
  induction n as [|n IH]; intros i chunks sectors Hdata Hslots Hcons Hwf Hfrom; [done|].
  cbn [seq fold_left]. rewrite init_step_entry by lia.
  replace (S i) with (i + 1)%nat by lia.
  apply IH; [lia|lia|done|..].
  - destruct (header_entry data i) as [s|] eqn:Hentry; [|done].
    destruct (header_entry_valid data i s Hentry) as [Hoff Hcount].
    apply insort_well_formed; try done.
    intros t Ht. destruct (Hfrom t Ht) as [->|(j & Hj & Hentryj)].
    + by apply intersects_false_before.
    + split; [apply (Hcons i j)|apply (Hcons j i)]; (done || lia).
  - intros t Ht. destruct (header_entry data i) as [s|] eqn:Hentry.
    + rewrite insort_perm in Ht. apply elem_of_cons in Ht as [->|Ht].
      * right. exists i. split; [lia|done].
      * destruct (Hfrom t Ht) as [->|(j & Hj & Hentryj)]; [by left|].
        right. exists j. split; [lia|done].
    + destruct (Hfrom t Ht) as [->|(j & Hj & Hentryj)]; [by left|].
      right. exists j. split; [lia|done].
Qed.

Lemma init_well_formed (name : string) (data : list byte) :
  invalid_size (Z.of_nat (length data)) = false ->
  consistent_header data ->
  exists rf, RegionFile_init name (Some data) = Ok rf /\ well_formed (sectors rf).
Proof.
  intros Hsize Hcons. unfold RegionFile_init. rewrite Hsize.
  apply invalid_size_false in Hsize.
  pose proof (init_loop_well_formed data 1024 0 (replicate 1024 None) [mkSector 0 2]
                ltac:(lia) ltac:(lia) Hcons) as Hwf.
  change (4 * 0)%nat with 0%nat in Hwf.
  destruct (fold_left init_step _ _) as [[f cs] secs].
  eexists. split; [done|]. cbn [sectors snd] in *. apply Hwf.
  - split; [by exists []|]. split; [|done]. by apply Forall_singleton.
  - intros t Ht. apply list_elem_of_singleton in Ht. by left.
Qed.

(** * Further properties of the code *)

(** ** Sector *)

(** X1: [intersects] gives the same answer whichever sector it is asked
    of. *)
Theorem intersects_sym (a b : Sector) :
  SectorOps.intersects a b = SectorOps.intersects b a.
Proof.
  unfold SectorOps.intersects.
  destruct ((offset a <=? offset b) && (SectorOps.end_ a >? offset b));
    destruct ((offset b <=? offset a) && (SectorOps.end_ b >? offset a)); done.
Qed.

(** X2: [a < b] is [b > a]; and for two sectors of at least one page,
    [intersects] is [False] exactly when one of them is [<] the other, so
    [<] orders any set of sectors that do not intersect. *)
Theorem lt_gt_intersects (a b : Sector) :
  0 < count a -> 0 < count b ->
  SectorOps.lt a b = SectorOps.gt b a
  /\ (SectorOps.intersects a b = false
      <-> SectorOps.lt a b = true \/ SectorOps.lt b a = true)
  /\ ~ (SectorOps.lt a b = true /\ SectorOps.lt b a = true).
Proof.
  intros Ha Hb. unfold SectorOps.lt, SectorOps.gt. split; [|split].
  - rewrite Z.geb_leb. done.
  - rewrite !Z.leb_le. split.
    + intros Hint. destruct (intersects_false_inv a b Ha Hb Hint) as [H|H];
        unfold SectorOps.end_ in H; [by left|by right].
    + intros [H|H].
      * by destruct (intersects_false_after a b Ha H).
      * by destruct (intersects_false_before a b Hb H).
  - rewrite !Z.leb_le. lia.
Qed.

Lemma lt_gt_intersects_witness :
  SectorOps.lt (mkSector 2 3) (mkSector 5 1) = SectorOps.gt (mkSector 5 1) (mkSector 2 3)
  /\ (SectorOps.intersects (mkSector 2 3) (mkSector 5 1) = false
      <-> SectorOps.lt (mkSector 2 3) (mkSector 5 1) = true
          \/ SectorOps.lt (mkSector 5 1) (mkSector 2 3) = true)
  /\ ~ (SectorOps.lt (mkSector 2 3) (mkSector 5 1) = true
        /\ SectorOps.lt (mkSector 5 1) (mkSector 2 3) = true).
Proof. apply (lt_gt_intersects (mkSector 2 3) (mkSector 5 1)); simpl; lia. Defined.

(** X3: [to_bytes] returns exactly when [0 <= offset < 2^24] and
    [0 <= count < 256] (a count of 0 is encoded), and then gives four bytes;
    in every other case, a negative field included, it raises
    [OverflowError]. *)
Theorem to_bytes_range (s : Sector) :
  (0 <= offset s < 2 ^ 24 /\ 0 <= count s < 256
   /\ exists bs, SectorOps.to_bytes s = Ok bs /\ length bs = 4%nat)
  \/ (~ (0 <= offset s < 2 ^ 24 /\ 0 <= count s < 256)
      /\ SectorOps.to_bytes s = Raise OverflowError).
Proof.
  unfold SectorOps.to_bytes, int_to_bytes.
  change (256 ^ Z.of_nat 3) with (2 ^ 24). change (256 ^ Z.of_nat 1) with 256.
  destruct (Z.ltb_spec (offset s) 0); [right; split; [lia|done]|].
  destruct (Z.leb_spec (2 ^ 24) (offset s)); [right; split; [lia|done]|].
  cbn [result_bind].
  destruct (Z.ltb_spec (count s) 0); [right; split; [lia|done]|].
  destruct (Z.leb_spec 256 (count s)); [right; split; [lia|done]|].
  left. split; [lia|]. split; [lia|]. eexists. split; [done|]. reflexivity.
Qed.

(** ** Slot indexing *)

(** X4: the slot of a chunk depends on the coordinates modulo 32 only, also
    for negative coordinates: it is [(x mod 32) + 32 * (z mod 32)], lies in
    [0, 1024), and two coordinates share a slot exactly when they agree
    modulo 32 in both components. *)
Theorem slot_index_mod (x z : Z) :
  slot_index x z = x mod 32 + (z mod 32) * 32
  /\ 0 <= slot_index x z < 1024
  /\ forall x' z', slot_index x' z' = slot_index x z
                   <-> x' mod 32 = x mod 32 /\ z' mod 32 = z mod 32.
Proof.
  assert (Hmod : forall a b, slot_index a b = a mod 32 + (b mod 32) * 32).
  { intros a b. unfold slot_index. change 31 with (Z.ones 5).
    rewrite !Z.land_ones by lia. done. }
  split; [apply Hmod|]. split.
  - rewrite Hmod. pose proof (Z.mod_pos_bound x 32). pose proof (Z.mod_pos_bound z 32). lia.
  - intros x' z'. rewrite !Hmod.
    pose proof (Z.mod_pos_bound x 32). pose proof (Z.mod_pos_bound z 32).
    pose proof (Z.mod_pos_bound x' 32). pose proof (Z.mod_pos_bound z' 32). lia.
Qed.

(** ** bisect.insort on any list *)

Lemma bisect_right_loop_bounds (a : list Sector) (x : Sector) (fuel : nat) :
  forall lo hi : nat,
    (lo <= hi)%nat ->
    (lo <= bisect_right_loop fuel a x lo hi <= hi)%nat.
Proof.
  induction fuel as [|fuel IH]; intros lo hi Hle; cbn [bisect_right_loop]; [lia|].
  destruct (Nat.ltb_spec lo hi) as [Hlt|Hge]; [|lia].
  pose proof (Nat.div_mod_eq (lo + hi) 2) as Hdm.
  pose proof (Nat.mod_upper_bound (lo + hi) 2 ltac:(lia)) as Hmod.
  set (mid := ((lo + hi) / 2)%nat) in *.
  destruct (a !! mid) as [am|]; [|lia].
  destruct (SectorOps.lt x am).
  - pose proof (IH lo mid ltac:(lia)). lia.
  - pose proof (IH (mid + 1)%nat hi ltac:(lia)). lia.
Qed.

Lemma bisect_right_loop_pos (a : list Sector) (x : Sector) (fuel : nat) :
  forall lo hi : nat,
    (lo <= hi <= length a)%nat ->
    (hi - lo <= fuel)%nat ->
    (0 < hi)%nat ->
    (forall am, a !! 0%nat = Some am -> SectorOps.lt x am = false) ->
    (0 < bisect_right_loop fuel a x lo hi)%nat.
Proof.
  induction fuel as [|fuel IH]; intros lo hi Hrange Hfuel Hhi Hhead;
    cbn [bisect_right_loop]; [lia|].
  destruct (Nat.ltb_spec lo hi) as [Hlt|Hge]; [|lia].
  pose proof (Nat.div_mod_eq (lo + hi) 2) as Hdm.
  pose proof (Nat.mod_upper_bound (lo + hi) 2 ltac:(lia)) as Hmod.
  set (mid := ((lo + hi) / 2)%nat) in *.
  destruct (lookup_lt_is_Some_2 a mid ltac:(lia)) as [am Ham]. rewrite Ham.
  destruct (SectorOps.lt x am) eqn:Hcmp.
  - destruct mid as [|mid'] eqn:Hmid.
    + rewrite (Hhead am Ham) in Hcmp. done.
    + apply IH; (done || lia).
  - pose proof (bisect_right_loop_bounds a x fuel (mid + 1) hi ltac:(lia)). lia.
Qed.

Lemma insort_header_first (l : list Sector) (s : Sector) :
  header_first l -> 2 <= offset s -> 0 < count s ->
  header_first (insort l s).
Proof.
  intros (rest & -> & Hrest) Hoff Hcount. unfold insort, bisect_right.
  pose proof (bisect_right_loop_bounds (mkSector 0 2 :: rest) s
                (length (mkSector 0 2 :: rest)) 0 (length (mkSector 0 2 :: rest))
                ltac:(lia)) as Hbounds.
  pose proof (bisect_right_loop_pos (mkSector 0 2 :: rest) s
                (length (mkSector 0 2 :: rest)) 0 (length (mkSector 0 2 :: rest))
                ltac:(lia) ltac:(lia) ltac:(cbn; lia)) as Hpos.
  set (p := bisect_right_loop _ _ _ _ _) in *.
  destruct p as [|p].
  - exfalso. enough (0 < 0)%nat by lia. apply Hpos.
    intros am [= <-]. unfold SectorOps.lt. cbn [offset]. apply Z.leb_gt. lia.
  - cbn [take drop app]. eexists. split; [done|].
    apply Forall_app. split; [by apply Forall_take|].
    apply Forall_cons. split; [done|by apply Forall_drop].
Qed.

(** ** __init__ on any header *)

Lemma init_step_header_first st (i : nat) :
  header_first (snd st) -> header_first (snd (init_step st i)).
Proof.
  destruct st as [[f chunks] sectors]. cbn [snd]. intros Hfirst.
  unfold init_step.
  destruct (f_read f 3) as [b3 f3]. destruct (f_read f3 1) as [b1 f1].
  rewrite Z.geb_leb, Z.gtb_ltb.
  destruct (Z.leb_spec 2 (int_from_bytes b3)); [|done].
  destruct (Z.ltb_spec 0 (int_from_bytes b1)); [|done].
  cbn [andb snd]. by apply insort_header_first.
Qed.

Lemma init_loop_header_first (slots : list nat) :
  forall st, header_first (snd st) ->
             header_first (snd (fold_left init_step slots st)).
Proof.
  induction slots as [|i slots IH]; intros st Hfirst; [done|].
  cbn [fold_left]. apply IH. by apply init_step_header_first.
Qed.

(** X5: whatever a header of a valid-size file holds (entries that overlap,
    repeat or come in any order), [__init__] returns with 1024 slots in
    [chunks], and [sectors] starts with [Sector(0, 2)], followed by sectors
    at page 2 or later of at least one page: one for every occupied slot,
    so [len(sectors)] is one more than the number of occupied slots. *)
Theorem init_any_header (name : string) (data : list byte) :
  8192 <= Z.of_nat (length data) ->
  Z.of_nat (length data) mod 4096 = 0 ->
  exists rf,
    RegionFile_init name (Some data) = Ok rf
    /\ filename rf = name
    /\ length (chunks rf) = 1024%nat
    /\ header_first (sectors rf)
    /\ sectors rf ≡ₚ omap (header_entry data) (seq 0 1024) ++ [mkSector 0 2]
    /\ length (sectors rf)
       = S (length (filter (fun i => is_Some (header_entry data i)) (seq 0 1024))).
Proof.
  intros Hsize Hmod.
  destruct (init_spec name data) as (rf & Hinit & Hname & Hlen & _ & Hperm).
  { by apply invalid_size_false. }
  exists rf. split; [done|]. split; [done|]. split; [done|]. split; [|split; [done|]].
  - unfold RegionFile_init in Hinit.
    destruct (invalid_size (Z.of_nat (length data))); [done|].
    pose proof (init_loop_header_first (seq 0 1024)
                  (mkHandle data 0, replicate 1024 None, [mkSector 0 2])) as Hfirst.
    destruct (fold_left init_step _ _) as [[f cs] secs].
    injection Hinit as <-. cbn [sectors snd] in *. apply Hfirst.
    exists []. split; [done|]. constructor.
  - rewrite Hperm, length_app. cbn [length]. rewrite Nat.add_1_r. f_equal.
    generalize (seq 0 1024). intros slots.
    induction slots as [|i slots IH]; [done|].
    cbn [omap list_omap]. rewrite filter_cons.
    destruct (header_entry data i) as [s|].
    + rewrite decide_True by eauto. cbn [length]. by rewrite IH.
    + rewrite decide_False by (by intros [? ?]). done.
Qed.

Lemma init_any_header_witness :
  exists rf,
    RegionFile_init "r.0.0.mca"
      (Some (region_with_entry [x00; x00; x02; x03; x00; x00; x03; x01] [])) = Ok rf
    /\ filename rf = "r.0.0.mca"%string
    /\ length (chunks rf) = 1024%nat
    /\ header_first (sectors rf)
    /\ sectors rf
       ≡ₚ omap (header_entry (region_with_entry [x00; x00; x02; x03; x00; x00; x03; x01] []))
            (seq 0 1024) ++ [mkSector 0 2]
    /\ length (sectors rf)
       = S (length (filter
                      (fun i => is_Some
                         (header_entry
                            (region_with_entry [x00; x00; x02; x03; x00; x00; x03; x01] []) i))
                      (seq 0 1024))).
Proof.
  apply (init_any_header "r.0.0.mca"
           (region_with_entry [x00; x00; x02; x03; x00; x00; x03; x01] [])).
  - vm_compute. discriminate.
  - vm_compute. reflexivity.
Defined.

(** X6: when the occupied slots of a valid-size file name sectors that do
    not intersect one another, [__init__] leaves [sectors] in offset order:
    [Sector(0, 2)] first and every sector ending at or before the offset of
    the next, although the slots are read in slot order. *)
Theorem init_consistent_header (name : string) (data : list byte) :
  8192 <= Z.of_nat (length data) ->
  Z.of_nat (length data) mod 4096 = 0 ->
  consistent_header data ->
  exists rf,
    RegionFile_init name (Some data) = Ok rf
    /\ well_formed (sectors rf)
    /\ forall s, s ∈ sectors rf
         <-> s = mkSector 0 2
             \/ exists i, (i < 1024)%nat /\ header_entry data i = Some s.
Proof.
  intros Hsize Hmod Hcons.
  assert (Hvalid : invalid_size (Z.of_nat (length data)) = false)
    by (by apply invalid_size_false).
  destruct (init_well_formed name data Hvalid Hcons) as (rf & Hinit & Hwf).
  destruct (init_spec name data Hvalid) as (rf' & Hinit' & _ & _ & _ & Hperm).
  assert (rf' = rf) as -> by congruence.
  exists rf. split; [done|]. split; [done|].
  intros s. rewrite Hperm, elem_of_app, list_elem_of_singleton, list_elem_of_omap.
  split.
  - intros [(i & Hi & Hentry) | ->]; [|by left].
    right. exists i. split; [|done]. apply elem_of_seq in Hi. lia.
  - intros [-> | (i & Hi & Hentry)]; [by right|].
    left. exists i. split; [|done]. apply elem_of_seq. lia.
Qed.

(** Slot 0 holds [Sector(5, 2)] and slot 1 holds [Sector(2, 3)]. *)
Lemma two_chunks_consistent :
  consistent_header (region_with_entry [x00; x00; x05; x02; x00; x00; x02; x03] []).
Proof.
  assert (Hrest : Forall
            (fun i => header_entry
                        (region_with_entry [x00; x00; x05; x02; x00; x00; x02; x03] []) i
                      = None) (seq 2 1022)).
  { refine (bool_decide_unpack _ _). vm_compute. exact I. }
  intros i j s t Hi Hj Hij Hs Ht.
  assert (Hnone : forall k u, (2 <= k < 1024)%nat ->
            header_entry (region_with_entry [x00; x00; x05; x02; x00; x00; x02; x03] []) k
            = Some u -> False).
  { intros k u Hk Hu. rewrite Forall_forall in Hrest.
    rewrite (Hrest k) in Hu; [done|]. apply elem_of_seq. lia. }
  destruct i as [|[|i]]; destruct j as [|[|j]]; try lia;
    try (exfalso; apply (Hnone (S (S i)) s); [lia|exact Hs]);
    try (exfalso; apply (Hnone (S (S j)) t); [lia|exact Ht]).
  - vm_compute in Hs, Ht. injection Hs as <-. injection Ht as <-. reflexivity.
  - vm_compute in Hs, Ht. injection Hs as <-. injection Ht as <-. reflexivity.
Qed.

Lemma init_consistent_header_witness :
  exists rf,
    RegionFile_init "r.0.0.mca"
      (Some (region_with_entry [x00; x00; x05; x02; x00; x00; x02; x03] [])) = Ok rf
    /\ well_formed (sectors rf)
    /\ forall s, s ∈ sectors rf
         <-> s = mkSector 0 2
             \/ exists i, (i < 1024)%nat
                  /\ header_entry
                       (region_with_entry [x00; x00; x05; x02; x00; x00; x02; x03] []) i
                     = Some s.
Proof.
  apply (init_consistent_header "r.0.0.mca"
           (region_with_entry [x00; x00; x05; x02; x00; x00; x02; x03] [])).
  - vm_compute. discriminate.
  - vm_compute. reflexivity.
  - apply two_chunks_consistent.
Defined.

Example init_two_chunks_sorted :
  RegionFile_init "r.0.0.mca"
    (Some (region_with_entry [x00; x00; x05; x02; x00; x00; x02; x03] []))
  = Ok (mkRegionFile "r.0.0.mca"
          (<[0%nat := Some (mkSector 5 2)]>
             (<[1%nat := Some (mkSector 2 3)]> (replicate 1024 None)))
          [mkSector 0 2; mkSector 2 3; mkSector 5 2]).
Proof. vm_compute. reflexivity. Qed.

(** ** insort and get_free *)

(** X7: inserting with [bisect.insort] a sector of at least one page, at
    page 2 or later, that intersects nothing in a [sectors] list in offset
    order gives a list in offset order again, holding the old sectors and
    the new one. *)
Theorem insort_keeps_order (l : list Sector) (s : Sector) :
  well_formed l -> 0 < count s -> 2 <= offset s -> disjoint_from s l ->
  well_formed (insort l s) /\ insort l s ≡ₚ s :: l.
Proof.
  intros Hwf Hcount Hoff Hdis. split; [by apply insort_well_formed|apply insort_perm].
Qed.

Lemma three_sectors_well_formed :
  well_formed [mkSector 0 2; mkSector 2 1; mkSector 5 1].
Proof.
  split; [eauto|]. split; [repeat constructor|cbn; unfold SectorOps.end_; cbn; lia].
Qed.

Lemma insort_keeps_order_witness :
  well_formed (insort [mkSector 0 2; mkSector 2 1; mkSector 5 1] (mkSector 3 2))
  /\ insort [mkSector 0 2; mkSector 2 1; mkSector 5 1] (mkSector 3 2)
     ≡ₚ mkSector 3 2 :: [mkSector 0 2; mkSector 2 1; mkSector 5 1].
Proof.
  apply (insort_keeps_order [mkSector 0 2; mkSector 2 1; mkSector 5 1] (mkSector 3 2)).
  - apply three_sectors_well_formed.
  - cbn. lia.
  - cbn. lia.
  - intros t Ht. repeat (apply elem_of_cons in Ht as [->|Ht]); [done..|].
    by apply elem_of_nil in Ht.
Defined.

Example insort_middle :
  insort [mkSector 0 2; mkSector 2 1; mkSector 5 1] (mkSector 3 2)
  = [mkSector 0 2; mkSector 2 1; mkSector 3 2; mkSector 5 1].
Proof. reflexivity. Qed.

Lemma first_gap_from (l : list Sector) (c : Z) (g : Sector) :
  first_gap l c = Some g ->
  exists e, e ∈ l /\ g = mkSector (SectorOps.end_ e) c.
Proof.
  intros Hg. destruct (first_gap_Some l c g Hg) as (i & cur & next & Hi & _ & _ & -> & _).
  exists cur. split; [by eapply list_elem_of_lookup_2|done].
Qed.

Lemma chosen_from (l : list Sector) (c : Z) (s : Sector) :
  chosen l c s -> exists e, e ∈ l /\ s = mkSector (SectorOps.end_ e) c.
Proof.
  unfold chosen. destruct (first_gap l c) as [g|] eqn:Hg.
  - intros ->. by apply first_gap_from.
  - intros (e & He & ->). exists e. split; [|done].
    apply last_Some in He as (l' & ->). apply elem_of_app. right. left.
Qed.

Lemma header_first_chosen (l : list Sector) (c : Z) :
  header_first l ->
  exists s, chosen l c s /\ count s = c /\ 2 <= offset s.
Proof.
  intros (rest & -> & Hrest).
  assert (Hex : exists s, chosen (mkSector 0 2 :: rest) c s).
  { unfold chosen. destruct (first_gap (mkSector 0 2 :: rest) c) as [g|]; [eauto|].
    destruct (last (mkSector 0 2 :: rest)) as [e|] eqn:He; [eauto|].
    by apply last_None in He. }
  destruct Hex as [s Hs]. exists s. split; [done|].
  destruct (chosen_from _ _ _ Hs) as (e & He & ->). cbn [count offset]. split; [done|].
  apply elem_of_cons in He as [->|He]; [done|].
  rewrite Forall_forall in Hrest. destruct (Hrest e He). unfold SectorOps.end_. lia.
Qed.

(** X8: on the [sectors] list of any opened file, [get_free] for a positive
    size returns a sector of [ceil(size / 4096)] pages, large enough for the
    size and less than a page larger, that starts at page 2 or later and so
    never touches the two header pages; with [insert=False] nothing is
    changed, with [insert=True] only [sectors] changes, gaining the sector
    and keeping [Sector(0, 2)] first. *)
Theorem get_free_any_header (w : world) (size_in_bytes : Z) (insert : bool) :
  header_first (sectors (self w)) ->
  0 < size_in_bytes <= 2 ^ 53 ->
  exists s,
    get_free size_in_bytes insert w
    = (Ok s,
       if insert
       then mkWorld (mkRegionFile (filename (self w)) (chunks (self w))
                       (insort (sectors (self w)) s)) (disk w)
       else w)
    /\ count s = page_count size_in_bytes
    /\ size_in_bytes <= SectorOps.size s < size_in_bytes + 4096
    /\ 2 <= offset s
    /\ SectorOps.intersects s (mkSector 0 2) = false
    /\ header_first (insort (sectors (self w)) s)
    /\ insort (sectors (self w)) s ≡ₚ s :: sectors (self w).
Proof.
  intros Hfirst Hsize.
  destruct (header_first_chosen (sectors (self w)) (page_count size_in_bytes) Hfirst)
    as (s & Hs & Hcount & Hoff).
  pose proof (page_count_bounds size_in_bytes) as Hpages.
  exists s. split; [by apply get_free_chosen|]. split; [done|].
  split; [unfold SectorOps.size; rewrite Hcount; lia|]. split; [done|].
  split; [|split; [|apply insort_perm]].
  - by destruct (intersects_false_before s (mkSector 0 2) ltac:(cbn; lia) Hoff).
  - apply insort_header_first; [done..|]. rewrite Hcount. apply page_count_pos. lia.
Qed.

Lemma get_free_any_header_witness :
  exists s,
    get_free 5000 false (one_chunk_world [x00; x00; x00; x01] x07)
    = (Ok s, one_chunk_world [x00; x00; x00; x01] x07)
    /\ count s = page_count 5000
    /\ 5000 <= SectorOps.size s < 5000 + 4096
    /\ 2 <= offset s
    /\ SectorOps.intersects s (mkSector 0 2) = false
    /\ header_first (insort [mkSector 0 2; mkSector 2 1] s)
    /\ insort [mkSector 0 2; mkSector 2 1] s ≡ₚ s :: [mkSector 0 2; mkSector 2 1].
Proof.
  apply (get_free_any_header (one_chunk_world [x00; x00; x00; x01] x07) 5000 false).
  - exists [mkSector 2 1]. split; [done|]. repeat constructor; cbn; lia.
  - lia.
Defined.

(** ** delete_sector, write_sector *)

(** X9: [delete_sector] never changes the object or the file, whatever its
    arguments; it returns normally only for an index outside [0, 1024) or an
    empty slot, and on an occupied slot it raises [AttributeError], so no
    chunk is ever removed. *)
Theorem delete_sector_never_writes (w : world) (index : Z) (zero_data : bool) :
  snd (delete_sector index zero_data w) = w
  /\ (disk w <> None -> 0 <= index < 1024 ->
      forall v, chunks (self w) !! Z.to_nat index = Some v ->
        fst (delete_sector index zero_data w)
        = match v with
          | None => Ok tt
          | Some _ => Raise AttributeError
          end).
Proof.
  split.
  - destruct w as [rf [data|]]; unfold delete_sector; run_M; [|done].
    destruct ((0 <=? index) && (index <? 1024)); [|done].
    destruct (chunks rf !! Z.to_nat index) as [[s|]|]; done.
  - intros Hdisk Hindex v Hv. destruct v as [s|].
    + by rewrite (delete_sector_present w index s zero_data Hdisk Hindex Hv).
    + by rewrite (delete_sector_empty_slot w index zero_data Hdisk Hv).
Qed.

Lemma delete_sector_never_writes_witness :
  snd (delete_sector 0 true (one_chunk_world [x00; x00; x00; x01] x07))
    = one_chunk_world [x00; x00; x00; x01] x07
  /\ fst (delete_sector 0 true (one_chunk_world [x00; x00; x00; x01] x07))
     = Raise AttributeError
  /\ fst (delete_sector 1 true (one_chunk_world [x00; x00; x00; x01] x07)) = Ok tt.
Proof.
  split; [|split].
  - apply (proj1 (delete_sector_never_writes
                    (one_chunk_world [x00; x00; x00; x01] x07) 0 true)).
  - apply (proj2 (delete_sector_never_writes
                    (one_chunk_world [x00; x00; x00; x01] x07) 0 true)
             ltac:(discriminate) ltac:(lia) (Some (mkSector 2 1)) eq_refl).
  - apply (proj2 (delete_sector_never_writes
                    (one_chunk_world [x00; x00; x00; x01] x07) 1 true)
             ltac:(discriminate) ltac:(lia) None eq_refl).
Defined.

(** X10: on an existing file [write_sector] always raises
    [Exception('Invalid region file!')]: it opens the file with ['wb'], which
    empties it, and then checks the size.  The table entry is never written,
    [chunks] and [sectors] are unchanged, the file is left empty, and a
    [RegionFile] can no longer be opened on it. *)
Theorem write_sector_truncates (w : world) (sector : Sector) (index : Z) :
  disk w <> None ->
  write_sector sector index w
  = (Raise (Exception_ "Invalid region file!"), mkWorld (self w) (Some []))
  /\ (forall x z, has_chunk x z (mkWorld (self w) (Some []))
                  = (Ok false, mkWorld (self w) (Some [])))
  /\ RegionFile_init (filename (self w)) (Some [])
     = Raise (Exception_ "Invalid region file!").
Proof.
  intros Hdisk. destruct w as [rf [data|]]; [|done]. split; [|split].
  - unfold write_sector. run_M. reflexivity.
  - intros x z. rewrite (has_chunk_run _ []) by reflexivity.
    unfold header_offset. by rewrite drop_nil, take_nil.
  - reflexivity.
Qed.

Lemma write_sector_truncates_witness :
  write_sector (mkSector 2 1) 0 blank_world
  = (Raise (Exception_ "Invalid region file!"), mkWorld (self blank_world) (Some []))
  /\ (forall x z, has_chunk x z (mkWorld (self blank_world) (Some []))
                  = (Ok false, mkWorld (self blank_world) (Some [])))
  /\ RegionFile_init (filename (self blank_world)) (Some [])
     = Raise (Exception_ "Invalid region file!").
Proof.
  apply (write_sector_truncates blank_world (mkSector 2 1) 0). discriminate.
Defined.

(** ** write_chunk_tag on any opened file *)

Lemma header_offset_zeros (p : nat) (rest : list byte) (i : nat) :
  (4 * i + 3 <= p)%nat -> header_offset (replicate p x00 ++ rest) i = 0.
Proof.
  intros Hi. unfold header_offset.
  rewrite drop_app_le by (rewrite length_replicate; lia).
  rewrite drop_replicate.
  rewrite take_app_le by (rewrite length_replicate; lia).
  rewrite take_replicate. rewrite Nat.min_l by lia. reflexivity.
Qed.

Lemma has_chunk_no_table (rf : RegionFile) (data : list byte) :
  data = [] \/ (exists p rest, (Z.to_nat 8192 <= p)%nat /\ data = replicate p x00 ++ rest) ->
  forall x z, has_chunk x z (mkWorld rf (Some data)) = (Ok false, mkWorld rf (Some data)).
Proof.
  intros Hdata x z. pose proof (slot_index_range x z) as Hslot.
  rewrite (has_chunk_run _ data) by reflexivity.
  destruct Hdata as [->|(p & rest & Hp & ->)].
  - unfold header_offset. by rewrite drop_nil, take_nil.
  - rewrite header_offset_zeros by lia. reflexivity.
Qed.

Section WriteAnywhere.
Context `{Collaborators}.

(** X11: [write_chunk_tag] on a slot that already holds a chunk raises
    [AttributeError] at [self.chunks[ind] != None] before anything is
    released, allocated or written: the object and the file are unchanged,
    so a stored chunk can never be replaced. *)
Theorem write_chunk_tag_occupied (w : world) (x z : Z) (chunk_tag : nbt_tag)
    (s : Sector) :
  disk w <> None ->
  chunks (self w) !! Z.to_nat (slot_index x z) = Some (Some s) ->
  write_chunk_tag x z chunk_tag w = (Raise AttributeError, w).
Proof.
  intros Hdisk Hslot. destruct w as [rf [data|]]; [|done].
  cbn [self] in Hslot. unfold write_chunk_tag. run_M. rewrite Hslot. reflexivity.
Qed.

(** X12: [write_chunk_tag] on an empty slot of any opened file allocates a
    sector, opens the file with ['wb'], which empties it, and raises
    [TypeError] at [(len(chunk_data) + 1).to_bytes(4, 'big', False)].  The
    file is left with 0 bytes, so every chunk it held is lost: [has_chunk] is
    [False] for every coordinate afterwards.  [chunks] is unchanged (the
    slot stays empty) and [sectors] has gained the allocated sector. *)
Theorem write_chunk_tag_wipes_table (w : world) (x z : Z) (chunk_tag : nbt_tag) :
  disk w <> None ->
  chunks (self w) !! Z.to_nat (slot_index x z) = Some None ->
  header_first (sectors (self w)) ->
  exists s,
    write_chunk_tag x z chunk_tag w
    = (Raise TypeError,
       mkWorld (mkRegionFile (filename (self w)) (chunks (self w))
                  (insort (sectors (self w)) s)) (Some []))
    /\ count s = page_count (len (zlib_compress (nbt_dump chunk_tag)) + 5)
    /\ 2 <= offset s
    /\ forall x' z',
         has_chunk x' z' (snd (write_chunk_tag x z chunk_tag w))
         = (Ok false, snd (write_chunk_tag x z chunk_tag w)).
Proof.
  intros Hdisk Hslot Hfirst. destruct w as [rf [data|]]; [|done].
  cbn [self disk] in *.
  set (chunk_data := zlib_compress (nbt_dump chunk_tag)).
  destruct (header_first_chosen (sectors rf) (page_count (len chunk_data + 5)) Hfirst)
    as (s & Hs & Hcount & Hoff).
  pose proof (get_free_chosen (mkWorld rf (Some data)) (len chunk_data + 5) true s Hs)
    as Hget. cbn [self disk] in Hget.
  exists s.
  assert (Hwrite : write_chunk_tag x z chunk_tag (mkWorld rf (Some data))
                   = (Raise TypeError,
                      mkWorld (mkRegionFile (filename rf) (chunks rf)
                                 (insort (sectors rf) s)) (Some []))).
  { unfold write_chunk_tag. fold chunk_data. run_M. rewrite Hslot. cbn [ne_None].
    run_M. rewrite Hget. cbv iota beta. unfold f_seek. cbn [h_data].
    destruct (Z.ltb_spec (offset s * 4096) 0); [lia|].
    unfold int_to_bytes_positional. reflexivity. }
  rewrite Hwrite. split; [done|]. split; [done|]. split; [done|].
  cbn [snd]. apply has_chunk_no_table. by left.
Qed.

End WriteAnywhere.

Lemma write_chunk_tag_occupied_witness :
  @write_chunk_tag stored_collaborators 0 0 [x0a; x00; x00; x00]
    (one_chunk_world [x00; x00; x00; x01] x07)
  = (Raise AttributeError, one_chunk_world [x00; x00; x00; x01] x07).
Proof.
  apply (@write_chunk_tag_occupied stored_collaborators
           (one_chunk_world [x00; x00; x00; x01] x07) 0 0 [x0a; x00; x00; x00]
           (mkSector 2 1)); [discriminate|reflexivity].
Defined.

Lemma write_chunk_tag_wipes_table_witness :
  exists s,
    @write_chunk_tag stored_collaborators 1 0 [x0a; x00; x00; x00]
      (one_chunk_world [x00; x00; x00; x01] x07)
    = (Raise TypeError,
       mkWorld (mkRegionFile "r.0.0.mca"
                  (<[0%nat := Some (mkSector 2 1)]> (replicate 1024 None))
                  (insort [mkSector 0 2; mkSector 2 1] s)) (Some []))
    /\ count s = page_count 9
    /\ 2 <= offset s
    /\ forall x' z',
         has_chunk x' z'
           (snd (@write_chunk_tag stored_collaborators 1 0 [x0a; x00; x00; x00]
              (one_chunk_world [x00; x00; x00; x01] x07)))
         = (Ok false,
            (snd (@write_chunk_tag stored_collaborators 1 0 [x0a; x00; x00; x00]
              (one_chunk_world [x00; x00; x00; x01] x07)))).
Proof.
  apply (@write_chunk_tag_wipes_table stored_collaborators
           (one_chunk_world [x00; x00; x00; x01] x07) 1 0 [x0a; x00; x00; x00]).
  - discriminate.
  - reflexivity.
  - exists [mkSector 2 1]. split; [done|]. repeat constructor; cbn; lia.
Defined.

(** ** Reading records *)

Lemma f_read_prefix (data : list byte) (pos : nat) (pre rest : list byte) :
  drop pos data = pre ++ rest ->
  f_read (mkHandle data pos) (Z.of_nat (length pre))
  = (pre, mkHandle data (pos + length pre))
  /\ drop (pos + length pre) data = rest.
Proof.
  intros Hdrop. unfold f_read. cbn [h_data h_pos].
  destruct (Z.ltb_spec (Z.of_nat (length pre)) 0); [lia|].
  rewrite Nat2Z.id, Hdrop, take_app_length. split; [done|].
  by rewrite <- drop_drop, Hdrop, drop_app_length.
Qed.

Section ReadAnywhere.
Context `{Collaborators}.

(** X13: on a file whose table entry for the slot has a non-zero offset and
    whose page at that offset starts with a record (the 4-byte big-endian
    length [len(payload) + 1], a compression type 1, 2 or 3, the payload),
    [read_chunk_raw] returns the payload decompressed by gzip (1) or zlib
    (2), or the payload itself (3); [read_chunk_tag] returns that parsed by
    [nbt.load]; an error of the codec or of the parser is raised to the
    caller; neither changes the file or the object. *)
Theorem read_record (w : world) (data : list byte) (x z : Z)
    (compression_type : Z) (payload : list byte) :
  disk w = Some data ->
  header_offset data (Z.to_nat (slot_index x z)) <> 0 ->
  compression_type = 1 \/ compression_type = 2 \/ compression_type = 3 ->
  len payload + 1 < 2 ^ 32 ->
  record_at data (header_offset data (Z.to_nat (slot_index x z)))
    (be_digits 4 (len payload + 1) ++ byte_of_Z compression_type :: payload) ->
  read_chunk_raw x z w
  = (match decompress compression_type payload with
     | Ok raw => Ok (Some raw)
     | Raise e => Raise e
     end, w)
  /\ read_chunk_tag x z w
     = (match decompress compression_type payload with
        | Ok raw =>
            match nbt_load raw with
            | Ok tag => Ok (Some tag)
            | Raise e => Raise e
            end
        | Raise e => Raise e
        end, w).
Proof.
  intros Hdisk Hoff Htype Hlen Hrecord. pose proof (slot_index_range x z) as Hslot.
  destruct w as [rf d]. cbn [disk] in Hdisk. subst d.
  pose proof (int_from_bytes_nonneg
                (take 3 (drop (4 * Z.to_nat (slot_index x z)) data))) as Hnn.
  fold (header_offset data (Z.to_nat (slot_index x z))) in Hnn.
  set (off := header_offset data (Z.to_nat (slot_index x z))) in *.
  set (pos := Z.to_nat (off * 4096)).
  assert (Hlen0 : 0 <= len payload) by (unfold len; lia).
  (* the three reads of the record *)
  unfold record_at in Hrecord. fold pos in Hrecord.
  assert (Hdrop : drop pos data
                  = be_digits 4 (len payload + 1)
                      ++ ([byte_of_Z compression_type]
                            ++ (payload
                                  ++ drop (length (be_digits 4 (len payload + 1)
                                                     ++ byte_of_Z compression_type :: payload))
                                       (drop pos data)))).
  { rewrite <- (take_drop (length (be_digits 4 (len payload + 1)
                                     ++ byte_of_Z compression_type :: payload))
                  (drop pos data)) at 1.
    rewrite Hrecord. by rewrite <- !app_assoc. }
  destruct (f_read_prefix data pos _ _ Hdrop) as [Hread4 Hdrop4].
  destruct (f_read_prefix data _ _ _ Hdrop4) as [Hread1 Hdrop1].
  destruct (f_read_prefix data _ _ _ Hdrop1) as [Hreadp _].
  rewrite length_be_digits in Hread4, Hread1, Hreadp. cbn [length] in Hread1, Hreadp.
  change (Z.of_nat 4) with 4 in Hread4. change (Z.of_nat 1) with 1 in Hread1.
  assert (Hdl : int_from_bytes (be_digits 4 (len payload + 1)) - 1
                = Z.of_nat (length payload)).
  { rewrite int_from_bytes_be_digits by lia.
    rewrite Z.mod_small by (change (256 ^ Z.of_nat 4) with (2 ^ 32); lia).
    unfold len. lia. }
  assert (Hct : int_from_bytes [byte_of_Z compression_type] = compression_type).
  { unfold int_from_bytes. cbn [fold_left]. rewrite byte_to_of_Z by lia. lia. }
  assert (Hseek : forall f : handle, h_data f = data ->
            f_seek f (off * 4096) = Ok (mkHandle data pos)).
  { intros f <-. unfold f_seek. destruct (Z.ltb_spec (off * 4096) 0); [lia|done]. }
  split.
  - unfold read_chunk_raw. run_M. unfold f_seek at 1.
    destruct (Z.ltb_spec (slot_index x z * 4) 0); [lia|].
    unfold f_read at 1. cbn [h_data h_pos Z.ltb Z.compare].
    change (Z.to_nat 3) with 3%nat.
    replace (Z.to_nat (slot_index x z * 4)) with (4 * Z.to_nat (slot_index x z))%nat by lia.
    fold (header_offset data (Z.to_nat (slot_index x z))). fold off.
    destruct (Z.eqb_spec off 0); [done|].
    rewrite Hseek by done. rewrite Hread4, Hread1, Hct, Hdl, Hreadp. cbn [fst].
    unfold decompress.
    destruct Htype as [->|[->| ->]]; cbn [Z.eqb Pos.eqb].
    + destruct (gzip_decompress payload); reflexivity.
    + destruct (zlib_decompress payload); reflexivity.
    + reflexivity.
  - unfold read_chunk_tag. run_M. unfold f_seek at 1.
    destruct (Z.ltb_spec (slot_index x z * 4) 0); [lia|].
    unfold f_read at 1. cbn [h_data h_pos Z.ltb Z.compare].
    change (Z.to_nat 3) with 3%nat.
    replace (Z.to_nat (slot_index x z * 4)) with (4 * Z.to_nat (slot_index x z))%nat by lia.
    fold (header_offset data (Z.to_nat (slot_index x z))). fold off.
    destruct (Z.eqb_spec off 0); [done|].
    rewrite Hseek by done. rewrite Hread4, Hread1, Hct, Hdl, Hreadp. cbn [fst].
    unfold decompress.
    destruct Htype as [->|[->| ->]]; cbn [Z.eqb Pos.eqb].
    + destruct (gzip_decompress payload) as [raw|]; [destruct (nbt_load raw)|]; reflexivity.
    + destruct (zlib_decompress payload) as [raw|]; [destruct (nbt_load raw)|]; reflexivity.
    + destruct (nbt_load payload); reflexivity.
Qed.

End ReadAnywhere.

Lemma read_record_witness :
  @read_chunk_raw stored_collaborators 0 0
    (one_chunk_world [x00; x00; x00; x03] x03)
  = (Ok (Some [x00; x00]), one_chunk_world [x00; x00; x00; x03] x03)
  /\ @read_chunk_tag stored_collaborators 0 0
       (one_chunk_world [x00; x00; x00; x03] x03)
     = (Ok (Some [x00; x00]), one_chunk_world [x00; x00; x00; x03] x03).
Proof.
  apply (@read_record stored_collaborators
           (one_chunk_world [x00; x00; x00; x03] x03)
           (one_chunk_region [x00; x00; x00; x03] x03) 0 0 3 [x00; x00] eq_refl).
  - vm_compute. discriminate.
  - auto.
  - vm_compute. reflexivity.
  - vm_compute. reflexivity.
Defined.

Section ReadersCompared.
Context `{Collaborators}.

(** X14: [read_chunk_tag] is [read_chunk_raw] followed by [nbt.load]: on
    every file and for every coordinate it returns [None] where
    [read_chunk_raw] returns [None], the parsed bytes where [read_chunk_raw]
    returns bytes, and raises what [read_chunk_raw] raises; neither changes
    the file or the object. *)
Theorem read_chunk_tag_via_raw (w : world) (x z : Z) :
  snd (read_chunk_raw x z w) = w
  /\ read_chunk_tag x z w
     = (match fst (read_chunk_raw x z w) with
        | Ok None => Ok None
        | Ok (Some raw) =>
            match nbt_load raw with
            | Ok tag => Ok (Some tag)
            | Raise e => Raise e
            end
        | Raise e => Raise e
        end, w).
Proof.
  destruct w as [rf [data|]]; unfold read_chunk_raw, read_chunk_tag; run_M;
    [|split; reflexivity].
  destruct (f_seek {| h_data := data; h_pos := 0 |} (slot_index x z * 4)) as [f0|];
    [|split; reflexivity].
  destruct (f_read f0 3) as [b3 f3].
  destruct (int_from_bytes b3 =? 0); [split; reflexivity|].
  destruct (f_seek f3 (int_from_bytes b3 * 4096)) as [f|]; [|split; reflexivity].
  destruct (f_read f 4) as [b4 f4]. destruct (f_read f4 1) as [b1 f1].
  destruct (int_from_bytes b1 =? 2).
  { destruct (zlib_decompress _) as [raw|]; [|split; reflexivity].
    cbn [fst snd]. destruct (nbt_load raw); split; reflexivity. }
  destruct (int_from_bytes b1 =? 1).
  { destruct (gzip_decompress _) as [raw|]; [|split; reflexivity].
    cbn [fst snd]. destruct (nbt_load raw); split; reflexivity. }
  destruct (int_from_bytes b1 =? 3); [|split; reflexivity].
  cbn [fst snd]. destruct (nbt_load _); split; reflexivity.
Qed.

(** X15: a record of compression type 3 whose length field is 0 makes
    [read_chunk_raw] call [f.read(-1)]: it returns every byte of the file
    after the 5-byte record header, to the end of the file, not only the
    bytes of the sector. *)
Theorem read_zero_length (w : world) (data : list byte) (x z : Z) :
  disk w = Some data ->
  header_offset data (Z.to_nat (slot_index x z)) <> 0 ->
  record_length data (header_offset data (Z.to_nat (slot_index x z))) = 0 ->
  record_type data (header_offset data (Z.to_nat (slot_index x z))) = 3 ->
  read_chunk_raw x z w
  = (Ok (Some (drop (Z.to_nat (header_offset data (Z.to_nat (slot_index x z)) * 4096) + 5)
                 data)), w).
Proof.
  intros Hdisk Hoff Hlength Htype. pose proof (slot_index_range x z) as Hslot.
  destruct w as [rf d]. cbn [disk] in Hdisk. subst d.
  pose proof (int_from_bytes_nonneg
                (take 3 (drop (4 * Z.to_nat (slot_index x z)) data))) as Hnn.
  fold (header_offset data (Z.to_nat (slot_index x z))) in Hnn.
  set (off := header_offset data (Z.to_nat (slot_index x z))) in *.
  unfold record_length in Hlength. unfold record_type in Htype.
  set (pos := Z.to_nat (off * 4096)) in *.
  assert (Hlong : (pos + 5 <= length data)%nat).
  { destruct (Nat.le_gt_cases (pos + 5) (length data)) as [|Hshort]; [done|].
    rewrite drop_ge in Htype by lia. done. }
  unfold read_chunk_raw. run_M. unfold f_seek.
  destruct (Z.ltb_spec (slot_index x z * 4) 0); [lia|].
  unfold f_read at 1. cbn [h_data h_pos Z.ltb Z.compare].
  change (Z.to_nat 3) with 3%nat.
  replace (Z.to_nat (slot_index x z * 4)) with (4 * Z.to_nat (slot_index x z))%nat by lia.
  fold (header_offset data (Z.to_nat (slot_index x z))). fold off.
  destruct (Z.eqb_spec off 0); [done|].
  destruct (Z.ltb_spec (off * 4096) 0); [lia|]. cbn [h_data]. fold pos.
  change 4 with (Z.of_nat 4). rewrite (f_read_within data pos 4) by lia.
  change 1 with (Z.of_nat 1) at 1. rewrite (f_read_within data (pos + 4) 1) by lia.
  rewrite Hlength, Htype. cbn [Z.eqb Pos.eqb].
  unfold f_read. cbn [h_data h_pos fst Z.sub Z.add Z.opp Z.ltb Z.compare Z.pos_sub].
  replace (pos + 4 + 1)%nat with (pos + 5)%nat by lia. reflexivity.
Qed.

(** X16: where [has_chunk] answers [False], both readers return [None]
    without raising and without changing anything. *)
Theorem has_chunk_false_reads_none (w : world) (x z : Z) :
  has_chunk x z w = (Ok false, w) ->
  read_chunk_raw x z w = (Ok None, w) /\ read_chunk_tag x z w = (Ok None, w).
Proof.
  intros Hhas. destruct (disk w) as [data|] eqn:Hdisk.
  - rewrite (has_chunk_run w data x z Hdisk) in Hhas.
    injection Hhas as Hzero. apply negb_false_iff, Z.eqb_eq in Hzero.
    split; [by eapply read_chunk_raw_absent|by eapply read_chunk_tag_absent].
  - destruct w as [rf d]. cbn [disk] in Hdisk. subst d.
    unfold has_chunk in Hhas. revert Hhas. run_M. done.
Qed.

End ReadersCompared.

Lemma read_zero_length_witness :
  @read_chunk_raw stored_collaborators 0 0
    (one_chunk_world [x00; x00; x00; x00] x03)
  = (Ok (Some (drop (Z.to_nat (2 * 4096) + 5)
                 (one_chunk_region [x00; x00; x00; x00] x03))),
     one_chunk_world [x00; x00; x00; x00] x03).
Proof.
  apply (@read_zero_length stored_collaborators
           (one_chunk_world [x00; x00; x00; x00] x03)
           (one_chunk_region [x00; x00; x00; x00] x03) 0 0 eq_refl).
  - vm_compute. discriminate.
  - vm_compute. reflexivity.
  - vm_compute. reflexivity.
Defined.

Lemma has_chunk_false_reads_none_witness :
  @read_chunk_raw stored_collaborators 7 9 blank_world = (Ok None, blank_world)
  /\ @read_chunk_tag stored_collaborators 7 9 blank_world = (Ok None, blank_world).
Proof.
  apply (@has_chunk_false_reads_none stored_collaborators blank_world 7 9).
  vm_compute. reflexivity.
Defined.

(** ** Timestamps *)

(** X17: on an existing file [write_timestamp] always raises
    [Exception('Invalid region file!')]: the ['wb'] open empties the file
    before its size is checked.  No timestamp is written, the object is
    unchanged and the file is left with 0 bytes. *)
Theorem write_timestamp_truncates (w : world) (int_timestamp index : Z) :
  disk w <> None ->
  write_timestamp int_timestamp index w
  = (Raise (Exception_ "Invalid region file!"), mkWorld (self w) (Some [])).
Proof.
  intros Hdisk. destruct w as [rf [data|]]; [|done].
  unfold write_timestamp. run_M. reflexivity.
Qed.

Lemma write_timestamp_truncates_witness :
  write_timestamp 1700000000 0 blank_world
  = (Raise (Exception_ "Invalid region file!"), mkWorld (self blank_world) (Some [])).
Proof. apply (write_timestamp_truncates blank_world 1700000000 0). discriminate. Defined.


